(** * Bird's-eye-view rasterization, normalization and compositing

    A shallow embedding of the rasterization pipeline of the lane-assist
    conversion tools:

    - [rasterize_bev], [normalize_intensity], the frame loop and the
      composite merge of [main] in [tools/make_bev_intensity.py];
    - the grid sizing and the pixel mapping of
      [convert_laz_to_intensity_png] in [convert_laz_to_png.py].

    The Python code computes with IEEE 754 floats: the scalars of the
    command line are binary64, the points of a frame and the grids are
    binary32.  The development gives the numeric code two readings.

    - The exact reading (the definitions at top level) takes every float
      for the rational it denotes, in canonical form ([Qc]), and every
      operation for the exact one; rounding, infinities and NaN are outside
      it.  It carries the properties of the structure of the code: which
      points are kept, which cell a reducer writes, how grids are merged,
      which branch raises, which files are written.

    - The floating-point reading (module [FP]) computes as the code does:
      binary64 and binary32 operations rounded to nearest even, infinities,
      NaN and signed zeros, [int] raising on an infinity and on NaN, numpy
      casts of the x86-64 build.  It carries every property that names a
      number the code computes: the size of the grid, the index of a
      point, the mean of a cell, the value of a pixel.

    Integer casts ([int(..)], [astype(np.int32)], [astype(int)]) truncate
    toward zero; the int32 counters wrap around; the uint8 cast wraps
    modulo 256.

    Python exceptions are modelled by the [result] type: every numpy or
    builtin operation that can raise returns [Raise e]. *)

From Stdlib Require Import QArith Qcanon Qround Qpower ZArith Lia Lqa
  Permutation SpecFloat.
From stdpp Require Import base numbers list strings.

(** ** Exceptions *)

(** The exceptions that the modelled code raises.  [DecodeError] is that of
    [frame.ParseFromString] on a record that is not a frame, and
    [DataLossError] that of the iterator of the dataset on a corrupted
    record. *)
Inductive exn : Type :=
  | ZeroDivisionError
  | ValueError
  | IndexError
  | OverflowError
  | UnboundLocalError
  | DecodeError
  | DataLossError.

Inductive result (A : Type) : Type :=
  | Ok (a : A)
  | Raise (e : exn).
Arguments Ok {A} a.
Arguments Raise {A} e.

Global Instance result_ret : MRet result := λ A a, Ok a.
Global Instance result_bind : MBind result := λ A B f m,
  match m with
  | Ok a => f a
  | Raise e => Raise e
  end.

(** ** Numbers *)

Definition Qceqb (a b : Qc) : bool :=
  match (a ?= b)%Qc with Eq => true | _ => false end.
Definition Qcltb (a b : Qc) : bool :=
  match (a ?= b)%Qc with Lt => true | _ => false end.
Definition Qcleb (a b : Qc) : bool :=
  match (a ?= b)%Qc with Gt => false | _ => true end.

(** [int(x)] on a float, and [astype] to an integer type: truncation toward
    zero. *)
Definition py_int (q : Qc) : Z := Z.quot (Qnum q) (Zpos (Qden q)).

(** The builtin [max(a, b)]: the second argument wins only when it is
    strictly greater. *)
Definition py_max (a b : Qc) : Qc := if Qcltb a b then b else a.

(** [np.clip(a, lo, hi)] is [minimum(maximum(a, lo), hi)]; when [lo > hi] the
    result is [hi]. *)
Definition np_clip (a lo hi : Z) : Z := Z.min (Z.max a lo) hi.

(** [np.clip] on floats. *)
Definition np_clip_f (a lo hi : Qc) : Qc :=
  let m := if Qcltb a lo then lo else a in
  if Qcltb hi m then hi else m.

(** Two's-complement wrap-around of an [int32] value. *)
Definition wrap32 (z : Z) : Z := ((z + 2 ^ 31) mod 2 ^ 32 - 2 ^ 31)%Z.

(** [astype(np.uint8)] of a float: truncate, then keep the low 8 bits. *)
Definition astype_uint8 (q : Qc) : Z := (py_int q mod 256)%Z.

(** ** Arrays *)

Abbreviation Grid := (list (list Qc)).
Abbreviation CountGrid := (list (list Z)).
Abbreviation Image := (list (list Z)).

(** [np.zeros((h, w))]: negative dimensions are a [ValueError]. *)
Definition np_zeros {A : Type} (zero : A) (h w : Z) : result (list (list A)) :=
  if ((h <? 0) || (w <? 0))%Z then Raise ValueError
  else Ok (replicate (Z.to_nat h) (replicate (Z.to_nat w) zero)).

(** [np.zeros_like(a)]. *)
Definition np_zeros_like {A B : Type} (zero : B) (a : list (list A))
  : list (list B) :=
  map (map (λ _, zero)) a.

(** An integer index [i] into an axis of length [n]: negative indices count
    from the end, anything outside [-n, n) is an [IndexError]. *)
Definition np_index (n : nat) (i : Z) : result nat :=
  if ((0 <=? i) && (i <? Z.of_nat n))%Z then Ok (Z.to_nat i)
  else if ((- Z.of_nat n <=? i) && (i <? 0))%Z then Ok (Z.to_nat (i + Z.of_nat n))
  else Raise IndexError.

(** [a[r, c]] *)
Definition grid_get {A : Type} (a : list (list A)) (r c : Z) : result A :=
  i ← np_index (length a) r;
  match a !! i with
  | None => Raise IndexError
  | Some row =>
      j ← np_index (length row) c;
      match row !! j with
      | None => Raise IndexError
      | Some v => Ok v
      end
  end.

(** [a[r, c] = v] *)
Definition grid_set {A : Type} (a : list (list A)) (r c : Z) (v : A)
  : result (list (list A)) :=
  i ← np_index (length a) r;
  match a !! i with
  | None => Raise IndexError
  | Some row =>
      j ← np_index (length row) c;
      Ok (<[i := <[j := v]> row]> a)
  end.

(** The cell of a grid at a (natural) row and column. *)
Definition cell {A : Type} (a : list (list A)) (r c : nat) : option A :=
  row ← a !! r; row !! c.

(** A grid has shape [(h, w)]. *)
Definition has_shape {A : Type} (a : list (list A)) (h w : nat) : Prop :=
  length a = h ∧ Forall (λ row, length row = w) a.

(** A [for] loop over a list whose body may raise. *)
Fixpoint for_each {S A : Type} (body : S → A → result S) (l : list A) (s : S)
  : result S :=
  match l with
  | [] => Ok s
  | a :: l' => s' ← body s a; for_each body l' s'
  end.

(** ** Data model *)

Record Extent : Type := mkExtent {
  xmin : Qc;
  xmax : Qc;
  ymin : Qc;
  ymax : Qc
}.

(** A point with its intensity: row [i] of the [points] array together with
    entry [i] of the [intensities] array. *)
Record Point : Type := mkPoint {
  pt_x : Qc;
  pt_y : Qc;
  pt_z : Qc;
  pt_intensity : Qc
}.

(** The [reducer] argument is a string; [ROther] stands for any string other
    than ["max"] and ["mean"]. *)
Inductive Reducer : Type := RMax | RMean | ROther.

(** The [method] argument of [normalize_intensity]; [MOther] stands for any
    string other than ["minmax"] and ["percentile"]. *)
Inductive Method : Type := MMinmax | MPercentile | MOther.

(** ** [rasterize_bev] of tools/make_bev_intensity.py *)

(** The exact reading of [rasterize_bev]: the control flow, the masks, the
    loops and the grid updates of the code, with every arithmetic operation
    taken exactly.  The numbers that the code computes in binary64 and
    binary32 are those of [FP.bev_width], [FP.raw_pixel_x], [FP.mean_step],
    [FP.divide_nonzero] and [FP.rasterize_bev] below. *)

(** [width = int((xmax - xmin) / resolution)], on the exact quotient. *)
Definition bev_width (extent : Extent) (resolution : Qc) : Z :=
  py_int ((xmax extent - xmin extent) / resolution)%Qc.

(** [height = int((ymax - ymin) / resolution)], on the exact quotient. *)
Definition bev_height (extent : Extent) (resolution : Qc) : Z :=
  py_int ((ymax extent - ymin extent) / resolution)%Qc.

(** [(x >= xmin) & (x < xmax) & (y >= ymin) & (y < ymax)] *)
Definition valid_mask (extent : Extent) (p : Point) : bool :=
  Qcleb (xmin extent) (pt_x p) && Qcltb (pt_x p) (xmax extent) &&
  Qcleb (ymin extent) (pt_y p) && Qcltb (pt_y p) (ymax extent).

(** [pixel_x], before and after clamping, on the exact quotient. *)
Definition raw_pixel_x (extent : Extent) (resolution : Qc) (p : Point) : Z :=
  py_int ((pt_x p - xmin extent) / resolution)%Qc.
Definition raw_pixel_y (extent : Extent) (resolution : Qc) (p : Point) : Z :=
  py_int ((pt_y p - ymin extent) / resolution)%Qc.
Definition pixel_x (extent : Extent) (resolution : Qc) (p : Point) : Z :=
  np_clip (raw_pixel_x extent resolution p) 0 (bev_width extent resolution - 1).
Definition pixel_y (extent : Extent) (resolution : Qc) (p : Point) : Z :=
  np_clip (raw_pixel_y extent resolution p) 0 (bev_height extent resolution - 1).

(** One entry of the parallel arrays [pixel_x], [pixel_y],
    [valid_intensities]. *)
Record Pixel : Type := mkPixel {
  pix_x : Z;
  pix_y : Z;
  pix_intensity : Qc
}.

Definition to_pixel (extent : Extent) (resolution : Qc) (p : Point) : Pixel :=
  mkPixel (pixel_x extent resolution p) (pixel_y extent resolution p)
          (pt_intensity p).

(** The body shared by the two reducer loops:
    [intensity_grid[py, px] = f(intensity_grid[py, px], v)] followed by
    [count_grid[py, px] += 1]. *)
Definition accumulate (f : Qc → Qc → Qc) (st : Grid * CountGrid) (q : Pixel)
  : result (Grid * CountGrid) :=
  let '(intensity_grid, count_grid) := st in
  old ← grid_get intensity_grid (pix_y q) (pix_x q);
  intensity_grid' ← grid_set intensity_grid (pix_y q) (pix_x q)
                      (f old (pix_intensity q));
  n ← grid_get count_grid (pix_y q) (pix_x q);
  count_grid' ← grid_set count_grid (pix_y q) (pix_x q) (wrap32 (n + 1));
  Ok (intensity_grid', count_grid').

(** [intensity_grid[py, px] = max(intensity_grid[py, px], v)] *)
Definition max_step := accumulate py_max.
(** [intensity_grid[py, px] += v], as an exact sum. *)
Definition mean_step := accumulate Qcplus.

(** [intensity_grid[nonzero_mask] /= count_grid[nonzero_mask]] with
    [nonzero_mask = count_grid > 0], as an exact quotient. *)
Definition divide_nonzero (intensity_grid : Grid) (count_grid : CountGrid)
  : Grid :=
  zip_with (zip_with (λ s n, if (0 <? n)%Z then (s / Qc_of_Z n)%Qc else s))
           intensity_grid count_grid.

Definition rasterize_bev (points : list Point) (extent : Extent)
    (resolution : Qc) (reducer : Reducer) : result Grid :=
  if Qceqb resolution 0 then Raise ZeroDivisionError else
  let width := bev_width extent resolution in
  let height := bev_height extent resolution in
  intensity_grid ← np_zeros 0%Qc height width;
  count_grid ← np_zeros 0%Z height width;
  match points with
  | [] => Ok intensity_grid
  | _ =>
    match filter (λ p, valid_mask extent p = true) points with
    | [] => Ok intensity_grid
    | valid =>
      let pixels := map (to_pixel extent resolution) valid in
      match reducer with
      | RMax =>
          '(ig, _) ← for_each max_step pixels (intensity_grid, count_grid);
          Ok ig
      | RMean =>
          '(ig, cg) ← for_each mean_step pixels (intensity_grid, count_grid);
          Ok (divide_nonzero ig cg)
      | ROther => Ok intensity_grid
      end
    end
  end.

(** ** [normalize_intensity] of tools/make_bev_intensity.py *)

Definition Qcmin (a b : Qc) : Qc := if Qcltb b a then b else a.

(** [np.min] and [np.max] of an array, flattened; a zero-size array is a
    [ValueError]. *)
Definition np_min (a : list Qc) : result Qc :=
  match a with
  | [] => Raise ValueError
  | x :: a' => Ok (fold_left Qcmin a' x)
  end.
Definition np_max (a : list Qc) : result Qc :=
  match a with
  | [] => Raise ValueError
  | x :: a' => Ok (fold_left py_max a' x)
  end.

Fixpoint insert_sorted (x : Qc) (l : list Qc) : list Qc :=
  match l with
  | [] => [x]
  | y :: l' => if Qcleb x y then x :: l else y :: insert_sorted x l'
  end.
Definition sort (l : list Qc) : list Qc := foldr insert_sorted [] l.

(** [np.percentile(a, q)] with the default linear interpolation: on the
    sorted data, the value at the virtual index [(n - 1) * q / 100].
    numpy reads the sorted data at position [-1] to look for NaN, so an
    empty array is an [IndexError]; [q] outside [0, 100] is a
    [ValueError]. *)
Definition np_percentile (a : list Qc) (q : Qc) : result Qc :=
  if Qcltb q 0 || Qcltb (Qc_of_Z 100) q then Raise ValueError else
  match sort a with
  | [] => Raise IndexError
  | s =>
      let n := Z.of_nat (length s) in
      let virtual_index := (Qc_of_Z (n - 1) * q / Qc_of_Z 100)%Qc in
      let previous := Qfloor virtual_index in
      let next := Z.min (previous + 1) (n - 1) in
      let gamma := (virtual_index - Qc_of_Z previous)%Qc in
      let lo := default 0%Qc (s !! Z.to_nat previous) in
      let hi := default 0%Qc (s !! Z.to_nat next) in
      Ok (lo + (hi - lo) * gamma)%Qc
  end.

(** [normalized.astype(np.uint8)] *)
Definition to_uint8 (normalized : Grid) : Image :=
  map (map astype_uint8) normalized.

(** The exact reading of [normalize_intensity]: its branches, its
    exceptions and the shape of its result, with exact scaling.  The pixel
    values that the minmax branch computes in float32 are those of
    [FP.normalize_intensity_minmax] below. *)
Definition normalize_intensity (intensity_grid : Grid) (method : Method)
  : result Image :=
  match method with
  | MMinmax =>
      min_val ← np_min (concat intensity_grid);
      max_val ← np_max (concat intensity_grid);
      let normalized :=
        if Qcltb min_val max_val then
          map (map (λ v, ((v - min_val) / (max_val - min_val)
                            * Qc_of_Z 255)%Qc)) intensity_grid
        else np_zeros_like 0%Qc intensity_grid in
      Ok (to_uint8 normalized)
  | MPercentile =>
      let positive := filter (λ v, Qcltb 0 v = true) (concat intensity_grid) in
      p1 ← np_percentile positive (Qc_of_Z 1);
      p99 ← np_percentile positive (Qc_of_Z 99);
      let normalized :=
        if Qcltb p1 p99 then
          map (map (λ v, np_clip_f ((v - p1) / (p99 - p1) * Qc_of_Z 255)%Qc
                                   0%Qc (Qc_of_Z 255))) intensity_grid
        else np_zeros_like 0%Qc intensity_grid in
      Ok (to_uint8 normalized)
  | MOther => Raise UnboundLocalError
  end.

(** ** The composite accumulation of [main] *)

(** [np.maximum(a, b)]; on numbers the elementwise maximum is the builtin
    [max]. *)
Definition np_maximum (a b : Grid) : Grid := zip_with (zip_with py_max) a b.

(** [(a + b) / 2.0] *)
Definition pairwise_average (a b : Grid) : Grid :=
  zip_with (zip_with (λ x y, ((x + y) / Qc_of_Z 2)%Qc)) a b.

(** The body of [if args.composite:]; [composite_grid] starts as [None]. *)
Definition composite_merge (reducer : Reducer) (composite_grid : option Grid)
    (intensity_grid : Grid) : option Grid :=
  match composite_grid with
  | None => Some intensity_grid
  | Some c =>
      match reducer with
      | RMax => Some (np_maximum c intensity_grid)
      | _ => Some (pairwise_average c intensity_grid)
      end
  end.

(** The composite grid after merging the per-frame grids in order. *)
Definition composite_of (reducer : Reducer) (grids : list Grid) : option Grid :=
  fold_left (composite_merge reducer) grids None.

(** The frame loop of [main] in composite mode, over the point sets of the
    selected frames: a frame without points is skipped with a warning, a
    frame whose rasterization raises is reported and skipped. *)
Definition main_composite (frames : list (list Point)) (extent : Extent)
    (resolution : Qc) (reducer : Reducer) : option Grid :=
  fold_left
    (λ composite_grid points,
       match points with
       | [] => composite_grid
       | _ =>
           match rasterize_bev points extent resolution reducer with
           | Ok intensity_grid =>
               composite_merge reducer composite_grid intensity_grid
           | Raise _ => composite_grid
           end
       end)
    frames None.

(** ** [convert_laz_to_intensity_png] of convert_laz_to_png.py *)

(** The exact reading of the sizing and of the pixel mapping; the float64
    computation is that of [FP.laz_width], [FP.laz_px] and [FP.laz_py]
    below. *)

(** The bounding box [x.min(), x.max(), y.min(), y.max()] of the data. *)
Definition laz_bounds (points : list Point) : result Extent :=
  x_min ← np_min (map pt_x points);
  x_max ← np_max (map pt_x points);
  y_min ← np_min (map pt_y points);
  y_max ← np_max (map pt_y points);
  Ok (mkExtent x_min x_max y_min y_max).

(** [int((x_max - x_min) / resolution) + 1], on the exact quotient. *)
Definition laz_width (bounds : Extent) (resolution : Qc) : Z :=
  (py_int ((xmax bounds - xmin bounds) / resolution)%Qc + 1)%Z.
Definition laz_height (bounds : Extent) (resolution : Qc) : Z :=
  (py_int ((ymax bounds - ymin bounds) / resolution)%Qc + 1)%Z.

(** [px = ((x - x_min) / resolution).astype(int)], on the exact
    quotient. *)
Definition laz_px (bounds : Extent) (resolution : Qc) (p : Point) : Z :=
  py_int ((pt_x p - xmin bounds) / resolution)%Qc.
(** [py = ((y_max - y) / resolution).astype(int)  # Flip Y axis] *)
Definition laz_py (bounds : Extent) (resolution : Qc) (p : Point) : Z :=
  py_int ((ymax bounds - pt_y p) / resolution)%Qc.



(** ** [parse_frame_range] of tools/make_bev_intensity.py *)

(** [s.split(sep, 1)] when [sep] occurs in [s]: the text before and the
    text after the first occurrence. *)
Definition split_first (sep s : string) : option (string * string) :=
  i ← String.index 0 sep s;
  Some (String.substring 0 i s,
        String.substring (i + String.length sep)
          (String.length s - (i + String.length sep)) s).

(** The frame range [(start_frame, end_frame)]; [None] stands for Python's
    [None].  The builtin [int] on strings is the parameter [int]. *)
Definition parse_frame_range (int : string → result Z) (frames_str : string)
  : result (option Z * option Z) :=
  if decide (frames_str = "all"%string) then Ok (None, None) else
  match split_first ".." frames_str with
  | Some (start_str, end_str) =>
      start_frame ← (if decide (start_str = ""%string) then Ok 0%Z
                     else int start_str);
      end_frame ← (if decide (end_str = ""%string) then Ok None
                   else n ← int end_str; Ok (Some n));
      Ok (Some start_frame, end_frame)
  | None =>
      frame_num ← int frames_str;
      Ok (Some frame_num, Some frame_num)
  end.

(** ** [save_png_with_metadata] and [main] of tools/make_bev_intensity.py *)

(** The parsed command line, as far as the frame loop reads it. *)
Record Args : Type := mkArgs {
  args_res : Qc;
  args_extent : Extent;
  args_composite : bool;
  args_reducer : Reducer;
  args_normalize_method : Method
}.

(** The name of an output image: [frame_NNNNNN.png] for a frame index, or
    [composite.png]. *)
Inductive Name : Type :=
  | FrameName (index : Z)
  | CompositeName.

Record Metadata : Type := mkMetadata {
  resolution_m_per_px : Qc;
  ppm : Qc;
  metadata_extent : Extent;
  image_shape : nat * nat
}.

Record Summary : Type := mkSummary {
  frames_processed : Z;
  total_frames : Z;
  summary_resolution : Qc;
  summary_ppm : Qc;
  summary_extent : Extent;
  summary_reducer : Reducer;
  composite_mode : bool;
  summary_normalize_method : Method
}.

(** The files written to the output directory, in the order of writing. *)
Inductive File : Type :=
  | PngFile (name : Name) (image : Image)
  | MetadataFile (name : Name) (metadata : Metadata)
  | SummaryFile (summary : Summary).

(** [intensity_image.shape] of a two-dimensional array with at least one
    row. *)
Definition shape_of (image : Image) : nat * nat :=
  (length image, match image with [] => 0 | row :: _ => length row end).

(** The PNG is written first; [1.0 / resolution] may then raise. *)
Definition save_png_with_metadata (written : list File) (intensity_image : Image)
    (output : Name) (extent : Extent) (resolution : Qc)
  : list File * result unit :=
  let written1 := written ++ [PngFile output intensity_image] in
  if Qceqb resolution 0 then (written1, Raise ZeroDivisionError)
  else
    let metadata :=
      mkMetadata resolution (1 / resolution)%Qc extent
                 (shape_of intensity_image) in
    (written1 ++ [MetadataFile output metadata], Ok ()).

(** The variables of the frame loop of [main]. *)
Record LoopState : Type := mkLoopState {
  frame_count : Z;
  processed_count : Z;
  composite_grid : option Grid;
  files : list File
}.

Definition initial_state : LoopState := mkLoopState 0 0 None [].

(** [frame_count += 1] *)
Definition next_frame (st : LoopState) : LoopState :=
  mkLoopState (frame_count st + 1) (processed_count st) (composite_grid st)
              (files st).

(** The [try] block of the loop for one record of the dataset, followed by
    [frame_count += 1].  [data] is the outcome of
    [extract_lidar_points_with_intensity] on the record; every exception in
    the block is caught and reported. *)
Definition try_frame (args : Args) (st : LoopState)
    (data : result (list Point)) : LoopState :=
  match data with
  | Raise _ => next_frame st
  | Ok [] => next_frame st
  | Ok points =>
      match rasterize_bev points (args_extent args) (args_res args)
                          (args_reducer args) with
      | Raise _ => next_frame st
      | Ok intensity_grid =>
          if args_composite args then
            next_frame
              (mkLoopState (frame_count st) (processed_count st + 1)
                 (composite_merge (args_reducer args) (composite_grid st)
                                  intensity_grid)
                 (files st))
          else
            match normalize_intensity intensity_grid
                                      (args_normalize_method args) with
            | Raise _ => next_frame st
            | Ok normalized_image =>
                match save_png_with_metadata (files st) normalized_image
                        (FrameName (frame_count st)) (args_extent args)
                        (args_res args) with
                | (written, Raise _) =>
                    next_frame
                      (mkLoopState (frame_count st) (processed_count st)
                                   (composite_grid st) written)
                | (written, Ok _) =>
                    next_frame
                      (mkLoopState (frame_count st) (processed_count st + 1)
                                   (composite_grid st) written)
                end
            end
      end
  end.

(** [start_frame is not None and frame_count < start_frame] *)
Definition before_start (start_frame : option Z) (st : LoopState) : bool :=
  match start_frame with
  | Some s => (frame_count st <? s)%Z
  | None => false
  end.

(** [end_frame is not None and frame_count > end_frame] *)
Definition after_end (end_frame : option Z) (st : LoopState) : bool :=
  match end_frame with
  | Some e => (e <? frame_count st)%Z
  | None => false
  end.

(** The loop over a dataset whose records are all read and parsed without
    exception: a frame before the range is counted and skipped, the first
    frame after the range ends the loop.  [record_loop] below is the loop
    over records that may fail to be read or parsed. *)
Fixpoint frame_loop (args : Args) (start_frame end_frame : option Z)
    (dataset : list (result (list Point))) (st : LoopState) : LoopState :=
  match dataset with
  | [] => st
  | data :: rest =>
      if before_start start_frame st then
        frame_loop args start_frame end_frame rest (next_frame st)
      else if after_end end_frame st then st
      else frame_loop args start_frame end_frame rest (try_frame args st data)
  end.

(** The summary document written at the end of the run. *)
Definition summary_of (args : Args) (st : LoopState) : Summary :=
  mkSummary (processed_count st) (frame_count st) (args_res args)
            (1 / args_res args)%Qc (args_extent args) (args_reducer args)
            (args_composite args) (args_normalize_method args).

(** [main] once the command line is parsed and the frame range is known,
    on a dataset whose records are all read and parsed without exception:
    the files written and the summary, or the exception that ends the run.
    The banner printed before the loop divides by the resolution.
    [main_records] below is [main] over records that may fail to be read or
    parsed. *)
Definition main_run (args : Args) (start_frame end_frame : option Z)
    (dataset : list (result (list Point))) : list File * result Summary :=
  if Qceqb (args_res args) 0 then ([], Raise ZeroDivisionError) else
  let st := frame_loop args start_frame end_frame dataset initial_state in
  let finish (written : list File) :=
    (written ++ [SummaryFile (summary_of args st)], Ok (summary_of args st)) in
  match args_composite args, composite_grid st with
  | true, Some grid =>
      match normalize_intensity grid (args_normalize_method args) with
      | Raise e => (files st, Raise e)
      | Ok normalized_image =>
          match save_png_with_metadata (files st) normalized_image
                  CompositeName (args_extent args) (args_res args) with
          | (written, Raise e) => (written, Raise e)
          | (written, Ok _) => finish written
          end
      end
  | _, _ => finish (files st)
  end.

(** [main] from the [--frames] argument on. *)
Definition main (int : string → result Z) (args : Args) (frames : string)
    (dataset : list (result (list Point))) : list File * result Summary :=
  match parse_frame_range int frames with
  | Raise e => ([], Raise e)
  | Ok (start_frame, end_frame) => main_run args start_frame end_frame dataset
  end.

(** ** The records of the dataset *)




(** ** Notation for concrete inputs *)

Definition qc (q : Q) : Qc := Q2Qc q.
Definition pt (x y i : Q) : Point := mkPoint (qc x) (qc y) 0%Qc (qc i).
Definition extent_of (x0 x1 y0 y1 : Q) : Extent :=
  mkExtent (qc x0) (qc x1) (qc y0) (qc y1).
Definition grid_of (g : list (list Q)) : Grid := map (map qc) g.
Arguments qc q%_Q.
Arguments pt (x y i)%_Q.
Arguments extent_of (x0 x1 y0 y1)%_Q.

(** * The floating-point reading of the numeric code *)

(** The definitions above read the program over the rationals.  The module
    [FP] reads the numeric parts of [rasterize_bev], of the minmax branch of
    [normalize_intensity] and of the sizing and the pixel mapping of
    [convert_laz_to_intensity_png] with the arithmetic that the program
    runs: IEEE 754 binary64 for Python floats and numpy's float64, binary32
    for numpy's float32 arrays, each operation rounded to nearest, ties to
    even, with infinities, NaN and signed zeros, as the Standard Library's
    [SpecFloat] specifies them.  Memory is not limited: [np.zeros] succeeds
    on every shape without a negative dimension. *)

Module FP.

(** ** Numbers *)

Abbreviation float := spec_float.

Definition zero : float := S754_zero false.

(** The operations of binary32, for float32 arrays and scalars. *)
Definition f32_add : float → float → float := SFadd 24 128.
Definition f32_sub : float → float → float := SFsub 24 128.
Definition f32_mul : float → float → float := SFmul 24 128.
Definition f32_div : float → float → float := SFdiv 24 128.

(** The operations of binary64, for Python floats and float64 arrays. *)
Definition f64_sub : float → float → float := SFsub 53 1024.
Definition f64_div : float → float → float := SFdiv 53 1024.

(** The conversion of a float64 to float32 rounds; the conversions of a
    float32 and of an integer to float64 are exact. *)
Definition f32_of_f64 (x : float) : float :=
  match x with
  | S754_finite s m e => binary_round 24 128 s m e
  | _ => x
  end.
Definition f64_of_f32 (x : float) : float :=
  match x with
  | S754_finite s m e => binary_round 53 1024 s m e
  | _ => x
  end.
Definition f64_of_Z (n : Z) : float := binary_normalize 53 1024 n 0 false.
Definition f32_of_Z (n : Z) : float := binary_normalize 24 128 n 0 false.

Definition is_zero (x : float) : bool :=
  match x with S754_zero _ => true | _ => false end.
Definition is_nan (x : float) : bool :=
  match x with S754_nan => true | _ => false end.
Definition is_infinity (x : float) : bool :=
  match x with S754_infinity _ => true | _ => false end.
Definition is_finite (x : float) : bool :=
  match x with S754_zero _ | S754_finite _ _ _ => true | _ => false end.

(** The sign bit: set on the negative numbers, on -0 and on -inf. *)
Definition sign (x : float) : bool :=
  match x with
  | S754_zero s | S754_infinity s | S754_finite s _ _ => s
  | S754_nan => false
  end.

(** The integer part of a finite number, toward zero. *)
Definition trunc (x : float) : Z :=
  match x with
  | S754_finite s m e =>
      cond_Zopp s (match e with
                   | Zneg p => Z.shiftr (Zpos m) (Zpos p)
                   | _ => Z.shiftl (Zpos m) e
                   end)
  | _ => 0%Z
  end.

(** The rational value of a finite number. *)
Definition value (x : float) : Q :=
  match x with
  | S754_finite s m e => (inject_Z (cond_Zopp s (Zpos m)) * 2 ^ e)%Q
  | _ => 0%Q
  end.

(** [a / b] on Python floats: a zero divisor is a [ZeroDivisionError]. *)
Definition py_truediv (a b : float) : result float :=
  if is_zero b then Raise ZeroDivisionError else Ok (f64_div a b).

(** [int(x)] on a float: an infinity is an [OverflowError], NaN a
    [ValueError]. *)
Definition py_int (x : float) : result Z :=
  match x with
  | S754_nan => Raise ValueError
  | S754_infinity _ => Raise OverflowError
  | _ => Ok (trunc x)
  end.

(** [astype(np.int32)] and [astype(int)] truncate; outside the range of
    the integer type, and on infinities and NaN, the cast gives the least
    integer of the type, as on x86-64. *)
Definition astype_int (bits : Z) (x : float) : Z :=
  if is_finite x
     && (- 2 ^ (bits - 1) <=? trunc x)%Z && (trunc x <? 2 ^ (bits - 1))%Z
  then trunc x else (- 2 ^ (bits - 1))%Z.
Definition astype_int32 : float → Z := astype_int 32.
Definition astype_int64 : float → Z := astype_int 64.

(** [astype(np.uint8)] of a float32: the low 8 bits of the int32 cast. *)
Definition astype_uint8 (x : float) : Z := (astype_int32 x mod 256)%Z.

(** The builtin [max(a, b)]: the second argument wins only when it is
    greater. *)
Definition py_max (a b : float) : float := if SFltb a b then b else a.

(** [np.minimum] and [np.maximum], which propagate NaN. *)
Definition minimum (a b : float) : float :=
  if SFleb a b || is_nan a then a else b.
Definition maximum (a b : float) : float :=
  if SFleb b a || is_nan a then a else b.

(** [np.min] and [np.max] of an array, flattened. *)
Definition np_min (a : list float) : result float :=
  match a with
  | [] => Raise ValueError
  | x :: a' => Ok (fold_left minimum a' x)
  end.
Definition np_max (a : list float) : result float :=
  match a with
  | [] => Raise ValueError
  | x :: a' => Ok (fold_left maximum a' x)
  end.

(** ** Data *)

Abbreviation Grid := (list (list float)).

(** [extent] holds Python floats. *)
Record Extent : Type := mkExtent {
  xmin : float;
  xmax : float;
  ymin : float;
  ymax : float
}.

(** Row [i] of the [points] array with entry [i] of the [intensities]
    array: float32 in tools/make_bev_intensity.py, float64 coordinates in
    convert_laz_to_png.py. *)
Record Point : Type := mkPoint {
  pt_x : float;
  pt_y : float;
  pt_z : float;
  pt_intensity : float
}.

Record Pixel : Type := mkPixel {
  pix_x : Z;
  pix_y : Z;
  pix_intensity : float
}.

(** ** [rasterize_bev] of tools/make_bev_intensity.py *)

(** [width = int((xmax - xmin) / resolution)] *)
Definition bev_width (extent : Extent) (resolution : float) : result Z :=
  quotient ← py_truediv (f64_sub (xmax extent) (xmin extent)) resolution;
  py_int quotient.

(** [height = int((ymax - ymin) / resolution)] *)
Definition bev_height (extent : Extent) (resolution : float) : result Z :=
  quotient ← py_truediv (f64_sub (ymax extent) (ymin extent)) resolution;
  py_int quotient.

(** [(x >= xmin) & (x < xmax) & (y >= ymin) & (y < ymax)]: a float32 array
    against Python floats, which numpy converts to float32. *)
Definition valid_mask (extent : Extent) (p : Point) : bool :=
  SFleb (f32_of_f64 (xmin extent)) (pt_x p) &&
  SFltb (pt_x p) (f32_of_f64 (xmax extent)) &&
  SFleb (f32_of_f64 (ymin extent)) (pt_y p) &&
  SFltb (pt_y p) (f32_of_f64 (ymax extent)).

(** [((valid_x - xmin) / resolution).astype(np.int32)], in float32. *)
Definition raw_pixel_x (extent : Extent) (resolution : float) (p : Point)
  : Z :=
  astype_int32 (f32_div (f32_sub (pt_x p) (f32_of_f64 (xmin extent)))
                        (f32_of_f64 resolution)).
Definition raw_pixel_y (extent : Extent) (resolution : float) (p : Point)
  : Z :=
  astype_int32 (f32_div (f32_sub (pt_y p) (f32_of_f64 (ymin extent)))
                        (f32_of_f64 resolution)).

(** [np.clip(pixel_x, 0, width - 1)] *)
Definition pixel_x (extent : Extent) (resolution : float) (width : Z)
    (p : Point) : Z :=
  np_clip (raw_pixel_x extent resolution p) 0 (width - 1).
Definition pixel_y (extent : Extent) (resolution : float) (height : Z)
    (p : Point) : Z :=
  np_clip (raw_pixel_y extent resolution p) 0 (height - 1).

Definition to_pixel (extent : Extent) (resolution : float) (width height : Z)
    (p : Point) : Pixel :=
  mkPixel (pixel_x extent resolution width p)
          (pixel_y extent resolution height p) (pt_intensity p).

(** The body shared by the two reducer loops. *)
Definition accumulate (f : float → float → float) (st : Grid * CountGrid)
    (q : Pixel) : result (Grid * CountGrid) :=
  let '(intensity_grid, count_grid) := st in
  old ← grid_get intensity_grid (pix_y q) (pix_x q);
  intensity_grid' ← grid_set intensity_grid (pix_y q) (pix_x q)
                      (f old (pix_intensity q));
  n ← grid_get count_grid (pix_y q) (pix_x q);
  count_grid' ← grid_set count_grid (pix_y q) (pix_x q) (wrap32 (n + 1));
  Ok (intensity_grid', count_grid').

(** [intensity_grid[py, px] = max(intensity_grid[py, px], v)] *)
Definition max_step := accumulate py_max.
(** [intensity_grid[py, px] += v], a float32 addition. *)
Definition mean_step := accumulate f32_add.

(** [intensity_grid[nonzero_mask] /= count_grid[nonzero_mask]]: float32 by
    int32 is divided in float64 and stored as float32. *)
Definition divide (s : float) (n : Z) : float :=
  f32_of_f64 (f64_div (f64_of_f32 s) (f64_of_Z n)).
Definition divide_nonzero (intensity_grid : Grid) (count_grid : CountGrid)
  : Grid :=
  zip_with (zip_with (λ s n, if (0 <? n)%Z then divide s n else s))
           intensity_grid count_grid.

Definition rasterize_bev (points : list Point) (extent : Extent)
    (resolution : float) (reducer : Reducer) : result Grid :=
  width ← bev_width extent resolution;
  height ← bev_height extent resolution;
  intensity_grid ← np_zeros zero height width;
  count_grid ← np_zeros 0%Z height width;
  match points with
  | [] => Ok intensity_grid
  | _ =>
    match filter (λ p, valid_mask extent p = true) points with
    | [] => Ok intensity_grid
    | valid =>
      let pixels := map (to_pixel extent resolution width height) valid in
      match reducer with
      | RMax =>
          '(ig, _) ← for_each max_step pixels (intensity_grid, count_grid);
          Ok ig
      | RMean =>
          '(ig, cg) ← for_each mean_step pixels (intensity_grid, count_grid);
          Ok (divide_nonzero ig cg)
      | ROther => Ok intensity_grid
      end
    end
  end.

(** ** The minmax branch of [normalize_intensity] *)

(** [normalized.astype(np.uint8)] *)
Definition to_uint8 (normalized : Grid) : Image :=
  map (map astype_uint8) normalized.

(** [(v - min_val) / (max_val - min_val) * 255.0], in float32. *)
Definition scale (min_val max_val v : float) : float :=
  f32_mul (f32_div (f32_sub v min_val) (f32_sub max_val min_val))
          (f32_of_Z 255).

Definition normalize_intensity_minmax (intensity_grid : Grid)
  : result Image :=
  min_val ← np_min (concat intensity_grid);
  max_val ← np_max (concat intensity_grid);
  let normalized :=
    if SFltb min_val max_val then
      map (map (scale min_val max_val)) intensity_grid
    else np_zeros_like zero intensity_grid in
  Ok (to_uint8 normalized).

(** ** The sizing and the pixel mapping of convert_laz_to_png.py *)

(** [x.min(), x.max(), y.min(), y.max()] *)
Definition laz_bounds (points : list Point) : result Extent :=
  x_min ← np_min (map pt_x points);
  x_max ← np_max (map pt_x points);
  y_min ← np_min (map pt_y points);
  y_max ← np_max (map pt_y points);
  Ok (mkExtent x_min x_max y_min y_max).

(** [int((x_max - x_min) / resolution) + 1], on numpy float64 scalars: a
    zero divisor gives an infinity or NaN, which [int] refuses. *)
Definition laz_width (bounds : Extent) (resolution : float) : result Z :=
  n ← py_int (f64_div (f64_sub (xmax bounds) (xmin bounds)) resolution);
  Ok (n + 1)%Z.
Definition laz_height (bounds : Extent) (resolution : float) : result Z :=
  n ← py_int (f64_div (f64_sub (ymax bounds) (ymin bounds)) resolution);
  Ok (n + 1)%Z.

(** [px = ((x - x_min) / resolution).astype(int)] *)
Definition laz_px (bounds : Extent) (resolution : float) (p : Point) : Z :=
  astype_int64 (f64_div (f64_sub (pt_x p) (xmin bounds)) resolution).
(** [py = ((y_max - y) / resolution).astype(int)  # Flip Y axis] *)
Definition laz_py (bounds : Extent) (resolution : float) (p : Point) : Z :=
  astype_int64 (f64_div (f64_sub (ymax bounds) (pt_y p)) resolution).

(** ** Concrete inputs *)

(** The number of the format nearest to a decimal literal: a Python float
    is the binary64 number nearest to its literal, and a float32 is made by
    rounding that Python float. *)
Definition of_Q (prec emax : Z) (q : Q) : float :=
  match Qnum q with
  | Z0 => zero
  | Zpos n =>
      SFdiv prec emax (S754_finite false n 0) (S754_finite false (Qden q) 0)
  | Zneg n =>
      SFdiv prec emax (S754_finite true n 0) (S754_finite false (Qden q) 0)
  end.
Definition f64 : Q → float := of_Q 53 1024.
Definition f32 (q : Q) : float := f32_of_f64 (f64 q).
Definition pt (x y i : Q) : Point := mkPoint (f32 x) (f32 y) zero (f32 i).
(** The same point with float64 coordinates, as convert_laz_to_png.py
    holds it. *)
Definition as_float64 (p : Point) : Point :=
  mkPoint (f64_of_f32 (pt_x p)) (f64_of_f32 (pt_y p)) (f64_of_f32 (pt_z p))
          (f64_of_f32 (pt_intensity p)).
Definition extent_of (x0 x1 y0 y1 : Q) : Extent :=
  mkExtent (f64 x0) (f64 x1) (f64 y0) (f64 y1).
Definition grid_of (g : list (list Q)) : Grid := map (map f32) g.

(** ** Vocabulary of the statements *)

(** The pixel addresses a cell of a grid of shape [(h, w)]. *)
Definition in_grid (h w : nat) (q : Pixel) : Prop :=
  (0 ≤ pix_y q < Z.of_nat h)%Z ∧ (0 ≤ pix_x q < Z.of_nat w)%Z.

(** The pixel addresses the cell [(r, c)]. *)
Definition at_cell (r c : nat) (q : Pixel) : Prop :=
  pix_y q = Z.of_nat r ∧ pix_x q = Z.of_nat c.

Global Instance at_cell_dec r c q : Decision (at_cell r c q).
Proof. unfold at_cell. apply _. Defined.

(** The intensities of the pixels at [(r, c)], in input order. *)
Definition cell_values (pixels : list Pixel) (r c : nat) : list float :=
  map pix_intensity (filter (at_cell r c) pixels).

(** The points kept by [valid_mask], in input order. *)
Definition valid_points (extent : Extent) (points : list Point)
  : list Point :=
  filter (λ p, valid_mask extent p = true) points.

(** The intensities of the in-extent points that [rasterize_bev] maps to
    the cell [(r, c)] of a grid of shape [(height, width)], in input
    order. *)
Definition cell_intensities (extent : Extent) (resolution : float)
    (width height : Z) (points : list Point) (r c : nat) : list float :=
  cell_values (map (to_pixel extent resolution width height)
                   (valid_points extent points)) r c.

End FP.

(** * Vocabulary of the statements *)

(** The grid of shape [(h, w)] whose cell [(r, c)] is [f r c]. *)
Definition tabulate {A : Type} (h w : nat) (f : nat → nat → A)
  : list (list A) :=
  map (λ r, map (f r) (seq 0 w)) (seq 0 h).

(** [f] with the value at [(r0, c0)] replaced. *)
Definition update {A : Type} (f : nat → nat → A) (r0 c0 : nat) (v : A)
  : nat → nat → A :=
  λ r c, if decide (r = r0 ∧ c = c0) then v else f r c.

(** The pixel addresses a cell of a grid of shape [(h, w)]. *)
Definition in_grid (h w : nat) (q : Pixel) : Prop :=
  (0 ≤ pix_y q < Z.of_nat h)%Z ∧ (0 ≤ pix_x q < Z.of_nat w)%Z.

(** The pixel addresses the cell [(r, c)]. *)
Definition at_cell (r c : nat) (q : Pixel) : Prop :=
  pix_y q = Z.of_nat r ∧ pix_x q = Z.of_nat c.

Global Instance at_cell_dec r c q : Decision (at_cell r c q).
Proof. unfold at_cell. apply _. Defined.

(** The intensities of the pixels at [(r, c)], in input order. *)
Definition cell_values (pixels : list Pixel) (r c : nat) : list Qc :=
  map pix_intensity (filter (at_cell r c) pixels).

(** The points kept by [valid_mask], in input order. *)
Definition valid_points (extent : Extent) (points : list Point) : list Point :=
  filter (λ p, valid_mask extent p = true) points.

Definition valid_pixels (extent : Extent) (resolution : Qc)
    (points : list Point) : list Pixel :=
  map (to_pixel extent resolution) (valid_points extent points).

(** The intensities of the in-extent points that are mapped to the cell
    [(r, c)], in input order. *)
Definition cell_intensities (extent : Extent) (resolution : Qc)
    (points : list Point) (r c : nat) : list Qc :=
  cell_values (valid_pixels extent resolution points) r c.

Definition zeros {A : Type} (zero : A) (h w : Z) : list (list A) :=
  replicate (Z.to_nat h) (replicate (Z.to_nat w) zero).

(** [m] is the maximum of the list [l]. *)
Definition is_maximum (m : Qc) (l : list Qc) : Prop :=
  m ∈ l ∧ ∀ x, x ∈ l → (x ≤ m)%Qc.

(** The in-extent points that [rasterize_bev] maps to the cell [(r, c)], in
    input order. *)
Definition points_in_cell (extent : Extent) (resolution : Qc)
    (points : list Point) (r c : nat) : list Point :=
  filter (λ p, valid_mask extent p = true
               ∧ pixel_y extent resolution p = Z.of_nat r
               ∧ pixel_x extent resolution p = Z.of_nat c) points.

(** The value of the cell [(r, c)] of a grid that has this cell. *)
Definition cell_at (r c : nat) (g : Grid) : Qc := default 0%Qc (cell g r c).

(** The merge applied to the running composite from the second frame on. *)
Definition merge_of (reducer : Reducer) : Grid → Grid → Grid :=
  match reducer with
  | RMax => np_maximum
  | _ => pairwise_average
  end.

(** The grid that a frame contributes to the composite, if any. *)
Definition frame_grid (extent : Extent) (resolution : Qc) (reducer : Reducer)
    (points : list Point) : option Grid :=
  match points with
  | [] => None
  | _ =>
      match rasterize_bev points extent resolution reducer with
      | Ok g => Some g
      | Raise _ => None
      end
  end.

Definition frame_grids (frames : list (list Point)) (extent : Extent)
    (resolution : Qc) (reducer : Reducer) : list Grid :=
  omap (frame_grid extent resolution reducer) frames.

Definition half : Qc := Q2Qc (1 # 2).

(** The weight of frame [k], counted from 0, in the composite of [n]
    frames. *)
Definition weight (n k : nat) : Qc := (half ^ (n - Nat.max k 1))%Qc.

(** [weight n k * v_k + weight n (k+1) * v_(k+1) + ...] *)
Fixpoint weighted_sum (n k : nat) (values : list Qc) : Qc :=
  match values with
  | [] => 0%Qc
  | v :: values' => (weight n k * v + weighted_sum n (S k) values')%Qc
  end.

(** The true mean of a non-empty list of values. *)
Definition true_mean (values : list Qc) : Qc :=
  (fold_left Qcplus values 0 / Qc_of_Z (Z.of_nat (length values)))%Qc.

(** The weight that the claim gives to frame [k] of [n], [k >= 2], frames
    counted from 1. *)
Definition claimed_weight (n k : nat) : Qc := (1 / 2 ^ (n - k))%Qc.

(** The value of the single cell of the composite of 1 by 1 grids. *)
Definition composite_value (reducer : Reducer) (values : list Q) : option Q :=
  (λ g, this (cell_at 0 0 g))
    <$> composite_of reducer (map (λ v, [[qc v]]) values).


(** The grid that the max reducer returns on a grid with at least one
    cell. *)
Definition max_grid (extent : Extent) (resolution : Qc)
    (points : list Point) : Grid :=
  tabulate (Z.to_nat (bev_height extent resolution))
           (Z.to_nat (bev_width extent resolution))
           (λ r c, fold_left py_max
                     (cell_intensities extent resolution points r c) 0%Qc).

(** [st] with its frame counter set to [k]. *)
Definition set_frame_count (st : LoopState) (k : Z) : LoopState :=
  mkLoopState k (processed_count st) (composite_grid st) (files st).

(** The number of leading records that a start frame skips. *)
Definition skipped (start_frame : option Z) : nat :=
  match start_frame with
  | Some s => Z.to_nat s
  | None => 0
  end.

(** The records of the dataset whose index lies in the frame range. *)
Definition frame_slice {A : Type} (start_frame end_frame : option Z)
    (dataset : list A) : list A :=
  match end_frame with
  | Some e =>
      take (Z.to_nat (e + 1) - skipped start_frame)
           (drop (skipped start_frame) dataset)
  | None => drop (skipped start_frame) dataset
  end.

(** The index [i] lies in the frame range. *)
Definition in_range (start_frame end_frame : option Z) (i : Z) : Prop :=
  match start_frame with Some s => (s ≤ i)%Z | None => True end ∧
  match end_frame with Some e => (i ≤ e)%Z | None => True end.

(** The name under which a file is written, for an image or its
    metadata. *)
Definition file_name (f : File) : option Name :=
  match f with
  | PngFile name _ => Some name
  | MetadataFile name _ => Some name
  | SummaryFile _ => None
  end.

(** The point sets of the records whose extraction succeeded. *)
Definition extracted (dataset : list (result (list Point)))
  : list (list Point) :=
  omap (λ data, match data with Ok points => Some points | Raise _ => None end)
       dataset.



(** * Properties *)

(** ** Comparisons and casts *)

Lemma Qcltb_lt (a b : Qc) : Qcltb a b = true ↔ (a < b)%Qc.
Proof.
  unfold Qcltb. rewrite Qclt_alt.
  destruct (a ?= b)%Qc; split; congruence.
Qed.

Lemma Qcleb_le (a b : Qc) : Qcleb a b = true ↔ (a ≤ b)%Qc.
Proof.
  unfold Qcleb. rewrite Qcle_alt.
  destruct (a ?= b)%Qc; split; congruence.
Qed.

Lemma Qceqb_eq (a b : Qc) : Qceqb a b = true ↔ a = b.
Proof.
  unfold Qceqb. rewrite Qceq_alt.
  destruct (a ?= b)%Qc; split; congruence.
Qed.

Lemma Qcltb_ge (a b : Qc) : Qcltb a b = false ↔ (b ≤ a)%Qc.
Proof.
  rewrite <- not_true_iff_false, Qcltb_lt. split.
  - apply Qcnot_lt_le.
  - apply Qcle_not_lt.
Qed.

Lemma Qcltb_irrefl (a : Qc) : Qcltb a a = false.
Proof. apply Qcltb_ge, Qcle_refl. Qed.





Lemma wrap32_small (z : Z) :
  (- 2 ^ 31 ≤ z < 2 ^ 31)%Z → wrap32 z = z.
Proof. intros H. unfold wrap32. rewrite Z.mod_small; lia. Qed.

Lemma wrap32_succ (z : Z) : wrap32 (wrap32 z + 1) = wrap32 (z + 1).
Proof.
  unfold wrap32.
  replace ((z + 2 ^ 31) mod 2 ^ 32 - 2 ^ 31 + 1 + 2 ^ 31)%Z
    with ((z + 2 ^ 31) mod 2 ^ 32 + 1)%Z by lia.
  replace (z + 1 + 2 ^ 31)%Z with ((z + 2 ^ 31) + 1)%Z by lia.
  by rewrite Zplus_mod_idemp_l.
Qed.

Lemma np_clip_range (a n : Z) : (1 ≤ n)%Z → (0 ≤ np_clip a 0 (n - 1) < n)%Z.
Proof. unfold np_clip. lia. Qed.

(** ** Grids as tables of their cells *)

Lemma row_lookup {A : Type} (w : nat) (k : nat → A) (c : nat) :
  c < w → map k (seq 0 w) !! c = Some (k c).
Proof. intros Hc. rewrite list_lookup_fmap, lookup_seq_lt by done. done. Qed.

Lemma replicate_row {A : Type} (w : nat) (z : A) :
  replicate w z = map (λ _, z) (seq 0 w).
Proof.
  apply list_eq. intros i. destruct (decide (i < w)) as [Hi|Hi].
  - rewrite lookup_replicate_2, row_lookup by done. done.
  - rewrite !(proj2 (lookup_ge_None _ _)); [done| |].
    + rewrite length_map, length_seq. lia.
    + rewrite length_replicate. lia.
Qed.

Section tabulate.
Context {A : Type}.
Implicit Types (f g : nat → nat → A) (h w r c : nat).

Lemma length_tabulate h w f : length (tabulate h w f) = h.
Proof. unfold tabulate. by rewrite length_map, length_seq. Qed.

Lemma tabulate_row h w f r :
  r < h → tabulate h w f !! r = Some (map (f r) (seq 0 w)).
Proof.
  intros Hr. unfold tabulate.
  rewrite list_lookup_fmap, lookup_seq_lt by done. done.
Qed.

Lemma tabulate_row_ge h w f r : h ≤ r → tabulate h w f !! r = None.
Proof. intros Hr. apply lookup_ge_None. by rewrite length_tabulate. Qed.

Lemma cell_tabulate h w f r c :
  r < h → c < w → cell (tabulate h w f) r c = Some (f r c).
Proof.
  intros Hr Hc. unfold cell. rewrite tabulate_row by done. simpl.
  by apply row_lookup.
Qed.

Lemma tabulate_shape h w f : has_shape (tabulate h w f) h w.
Proof.
  split; [apply length_tabulate|].
  unfold tabulate. apply Forall_fmap, Forall_forall. intros r _. simpl.
  by rewrite length_map, length_seq.
Qed.

Lemma row_ext w (k k' : nat → A) :
  (∀ c, c < w → k c = k' c) → map k (seq 0 w) = map k' (seq 0 w).
Proof.
  intros H. apply map_ext_in. intros c Hc. apply H.
  apply in_seq in Hc. lia.
Qed.

Lemma tabulate_ext h w f g :
  (∀ r c, r < h → c < w → f r c = g r c) → tabulate h w f = tabulate h w g.
Proof.
  intros H. unfold tabulate. apply map_ext_in. intros r Hr.
  apply in_seq in Hr. apply row_ext. intros c Hc. apply H; lia.
Qed.

Lemma replicate_tabulate h w (z : A) :
  replicate h (replicate w z) = tabulate h w (λ _ _, z).
Proof.
  unfold tabulate. rewrite (replicate_row w z). apply replicate_row.
Qed.

(** Every grid is the table of its own cells. *)
Lemma shape_tabulate (a : list (list A)) h w (d : A) :
  has_shape a h w → a = tabulate h w (λ r c, default d (cell a r c)).
Proof.
  intros [Hlen Hrows]. apply list_eq. intros r.
  destruct (decide (r < h)) as [Hr|Hr].
  - rewrite tabulate_row by done.
    destruct (lookup_lt_is_Some_2 a r) as [row Hrow]; [lia|].
    rewrite Hrow. f_equal.
    assert (length row = w) as Hw.
    { rewrite Forall_forall in Hrows. apply Hrows.
      by apply list_elem_of_lookup_2 in Hrow. }
    apply list_eq. intros c. destruct (decide (c < w)) as [Hc|Hc].
    + rewrite row_lookup by done. unfold cell. rewrite Hrow. simpl.
      destruct (lookup_lt_is_Some_2 row c) as [v Hv]; [lia|].
      by rewrite Hv.
    + rewrite !(proj2 (lookup_ge_None _ _)); [done| |].
      * rewrite length_map, length_seq. lia.
      * lia.
  - rewrite tabulate_row_ge by lia. apply lookup_ge_None. lia.
Qed.

Lemma np_index_in_range (n : nat) (i : Z) :
  (0 ≤ i < Z.of_nat n)%Z → np_index n i = Ok (Z.to_nat i).
Proof.
  intros H. unfold np_index.
  destruct (Z.leb_spec 0 i), (Z.ltb_spec i (Z.of_nat n)); simpl; try lia.
  done.
Qed.

Lemma grid_get_tabulate h w f (r c : Z) :
  (0 ≤ r < Z.of_nat h)%Z → (0 ≤ c < Z.of_nat w)%Z →
  grid_get (tabulate h w f) r c = Ok (f (Z.to_nat r) (Z.to_nat c)).
Proof.
  intros Hr Hc. unfold grid_get.
  rewrite length_tabulate, np_index_in_range by done. simpl.
  rewrite tabulate_row by lia.
  rewrite length_map, length_seq, np_index_in_range by done. simpl.
  rewrite row_lookup by lia. done.
Qed.

Lemma grid_set_tabulate h w f (r c : Z) (v : A) :
  (0 ≤ r < Z.of_nat h)%Z → (0 ≤ c < Z.of_nat w)%Z →
  grid_set (tabulate h w f) r c v
  = Ok (tabulate h w (update f (Z.to_nat r) (Z.to_nat c) v)).
Proof.
  intros Hr Hc. unfold grid_set.
  rewrite length_tabulate, np_index_in_range by done. simpl.
  rewrite tabulate_row by lia.
  rewrite length_map, length_seq, np_index_in_range by done. simpl.
  f_equal. set (r0 := Z.to_nat r). set (c0 := Z.to_nat c).
  assert (r0 < h) as Hr0 by lia. assert (c0 < w) as Hc0 by lia.
  apply list_eq. intros i. destruct (decide (i < h)) as [Hi|Hi].
  - rewrite (tabulate_row _ _ _ i) by done.
    destruct (decide (i = r0)) as [->|Hne].
    + rewrite list_lookup_insert_eq by (by rewrite length_tabulate).
      f_equal. apply list_eq. intros j.
      destruct (decide (j < w)) as [Hj|Hj].
      * rewrite (row_lookup _ _ j) by done.
        destruct (decide (j = c0)) as [->|Hnej].
        -- rewrite list_lookup_insert_eq
             by (by rewrite length_map, length_seq).
           unfold update. by rewrite decide_True.
        -- rewrite list_lookup_insert_ne by done.
           rewrite row_lookup by done.
           unfold update. rewrite decide_False; [done|]. intros []; done.
      * rewrite !(proj2 (lookup_ge_None _ _)); [done| |].
        -- rewrite length_map, length_seq. lia.
        -- rewrite length_insert, length_map, length_seq. lia.
    + rewrite list_lookup_insert_ne by done.
      rewrite tabulate_row by done. f_equal.
      apply row_ext. intros j Hj. unfold update.
      rewrite decide_False; [done|]. intros []; done.
  - rewrite tabulate_row_ge by lia. apply lookup_ge_None.
    rewrite length_insert, length_tabulate. lia.
Qed.
End tabulate.

Lemma map_tabulate {A B : Type} (k : A → B) h w (f : nat → nat → A) :
  map (map k) (tabulate h w f) = tabulate h w (λ r c, k (f r c)).
Proof.
  unfold tabulate. rewrite map_map. apply map_ext. intros r.
  by rewrite map_map.
Qed.

Lemma zip_with_row {A B C : Type} (k : A → B → C) w
    (f : nat → A) (g : nat → B) :
  zip_with k (map f (seq 0 w)) (map g (seq 0 w))
  = map (λ c, k (f c) (g c)) (seq 0 w).
Proof. induction (seq 0 w) as [|c l IH]; simpl; [done|]. by rewrite IH. Qed.

Lemma zip_with_tabulate {A B C : Type} (k : A → B → C) h w
    (f : nat → nat → A) (g : nat → nat → B) :
  zip_with (zip_with k) (tabulate h w f) (tabulate h w g)
  = tabulate h w (λ r c, k (f r c) (g r c)).
Proof.
  unfold tabulate.
  induction (seq 0 h) as [|r l IH]; simpl; [done|].
  by rewrite IH, zip_with_row.
Qed.

Lemma cell_zip_with {A B C : Type} (k : A → B → C)
    (a : list (list A)) (b : list (list B)) r c :
  cell (zip_with (zip_with k) a b) r c
  = x ← cell a r c; y ← cell b r c; Some (k x y).
Proof.
  unfold cell. rewrite lookup_zip_with.
  destruct (a !! r) as [ra|]; simpl; [|done].
  destruct (b !! r) as [rb|]; simpl.
  - rewrite lookup_zip_with. done.
  - by destruct (ra !! c).
Qed.

Lemma has_shape_cell {A : Type} (a : list (list A)) h w r c :
  has_shape a h w → r < h → c < w → is_Some (cell a r c).
Proof.
  intros [Hlen Hrows] Hr Hc. unfold cell.
  destruct (lookup_lt_is_Some_2 a r) as [row Hrow]; [lia|].
  rewrite Hrow. simpl. apply lookup_lt_is_Some_2.
  rewrite Forall_forall in Hrows.
  rewrite (Hrows row); [done|]. by apply list_elem_of_lookup_2 in Hrow.
Qed.

Lemma has_shape_zip_with {A B C : Type} (k : A → B → C)
    (a : list (list A)) (b : list (list B)) h w :
  has_shape a h w → has_shape b h w →
  has_shape (zip_with (zip_with k) a b) h w.
Proof.
  intros [Ha1 Ha2] [Hb1 Hb2]. split.
  - rewrite length_zip_with. lia.
  - clear Ha1 Hb1. revert b Hb2.
    induction Ha2 as [|ra a Hra _ IH]; intros b Hb2; simpl; [constructor|].
    destruct Hb2 as [|rb b Hrb Hb2]; constructor.
    + rewrite length_zip_with. lia.
    + by apply IH.
Qed.

Lemma has_shape_map {A B : Type} (f : A → B) (a : list (list A)) h w :
  has_shape a h w → has_shape (map (map f) a) h w.
Proof.
  intros [Hlen Hrows]. split; [by rewrite length_map|].
  apply Forall_fmap. eapply Forall_impl; [exact Hrows|].
  intros row Hrow. simpl. by rewrite length_map.
Qed.

(** ** The reducer loops *)

Lemma accumulate_tabulate f h w fi fc q :
  in_grid h w q →
  accumulate f (tabulate h w fi, tabulate h w fc) q
  = Ok (tabulate h w
          (update fi (Z.to_nat (pix_y q)) (Z.to_nat (pix_x q))
             (f (fi (Z.to_nat (pix_y q)) (Z.to_nat (pix_x q)))
                (pix_intensity q))),
        tabulate h w
          (update fc (Z.to_nat (pix_y q)) (Z.to_nat (pix_x q))
             (wrap32 (fc (Z.to_nat (pix_y q)) (Z.to_nat (pix_x q)) + 1)))).
Proof.
  intros [Hy Hx]. unfold accumulate.
  rewrite grid_get_tabulate by done. simpl.
  rewrite grid_set_tabulate by done. simpl.
  rewrite grid_get_tabulate by done. simpl.
  rewrite grid_set_tabulate by done. done.
Qed.

Lemma for_each_cons {S A : Type} (body : S → A → result S) a l s :
  for_each body (a :: l) s = body s a ≫= for_each body l.
Proof. done. Qed.

Lemma bind_Ok {A B : Type} (a : A) (k : A → result B) : Ok a ≫= k = k a.
Proof. done. Qed.

Lemma fold_cell_cons {A : Type} (k : A → Qc → A) (g : nat → nat → A)
    (q : Pixel) (pixels : list Pixel) (r c : nat) :
  (0 ≤ pix_y q)%Z → (0 ≤ pix_x q)%Z →
  fold_left k (cell_values pixels r c)
    (update g (Z.to_nat (pix_y q)) (Z.to_nat (pix_x q))
       (k (g (Z.to_nat (pix_y q)) (Z.to_nat (pix_x q))) (pix_intensity q))
       r c)
  = fold_left k (cell_values (q :: pixels) r c) (g r c).
Proof.
  intros Hy Hx. unfold cell_values, update. rewrite filter_cons.
  destruct (decide (at_cell r c q)) as [[Hr Hc]|Hne].
  - rewrite decide_True by lia. simpl.
    replace (Z.to_nat (pix_y q)) with r by lia.
    replace (Z.to_nat (pix_x q)) with c by lia. done.
  - rewrite decide_False; [done|]. intros [-> ->]. apply Hne.
    split; lia.
Qed.

Lemma accumulate_loop f h w pixels :
  Forall (in_grid h w) pixels →
  ∀ fi fc,
    for_each (accumulate f) pixels (tabulate h w fi, tabulate h w fc)
    = Ok (tabulate h w
            (λ r c, fold_left f (cell_values pixels r c) (fi r c)),
          tabulate h w
            (λ r c, fold_left (λ n _, wrap32 (n + 1))
                              (cell_values pixels r c) (fc r c))).
Proof.
  induction 1 as [|q pixels Hq _ IH]; intros fi fc; [done|].
  rewrite for_each_cons, accumulate_tabulate, bind_Ok, IH by done.
  destruct Hq as [Hy Hx].
  f_equal. f_equal; apply tabulate_ext; intros r c _ _.
  - apply fold_cell_cons; lia.
  - apply (fold_cell_cons (λ n _, wrap32 (n + 1))); lia.
Qed.

(** The counter of a cell after the loop is the number of its pixels, as an
    [int32]. *)
Lemma fold_count {A : Type} (l : list A) (k : Z) :
  fold_left (λ n _, wrap32 (n + 1)) l (wrap32 k)
  = wrap32 (k + Z.of_nat (length l)).
Proof.
  revert k. induction l as [|x l IH]; intros k; simpl.
  - f_equal. lia.
  - rewrite wrap32_succ, IH. f_equal. lia.
Qed.

Lemma fold_count_0 {A : Type} (l : list A) :
  fold_left (λ n _, wrap32 (n + 1)) l 0%Z = wrap32 (Z.of_nat (length l)).
Proof. apply (fold_count l 0). Qed.

(** ** [rasterize_bev], case by case *)

Lemma np_zeros_ok {A : Type} (zero : A) (h w : Z) :
  (0 ≤ h)%Z → (0 ≤ w)%Z → np_zeros zero h w = Ok (zeros zero h w).
Proof.
  intros Hh Hw. unfold np_zeros.
  destruct (Z.ltb_spec h 0), (Z.ltb_spec w 0); simpl; try lia. done.
Qed.

Lemma np_zeros_negative {A : Type} (zero : A) (h w : Z) :
  (h < 0 ∨ w < 0)%Z → np_zeros zero h w = Raise ValueError.
Proof.
  intros H. unfold np_zeros.
  destruct (Z.ltb_spec h 0), (Z.ltb_spec w 0); simpl; try lia; done.
Qed.

Lemma Qceqb_neq (a b : Qc) : a ≠ b → Qceqb a b = false.
Proof.
  intros H. apply not_true_iff_false. by rewrite Qceqb_eq.
Qed.

Section rasterize.
Variables (extent : Extent) (resolution : Qc).
Let width := bev_width extent resolution.
Let height := bev_height extent resolution.

Lemma rasterize_bev_zero_resolution points reducer :
  resolution = 0%Qc →
  rasterize_bev points extent resolution reducer = Raise ZeroDivisionError.
Proof. intros ->. done. Qed.

Lemma rasterize_bev_negative points reducer :
  resolution ≠ 0%Qc → (height < 0 ∨ width < 0)%Z →
  rasterize_bev points extent resolution reducer = Raise ValueError.
Proof.
  intros Hres Hneg. unfold rasterize_bev.
  rewrite Qceqb_neq by done.
  by rewrite (np_zeros_negative 0%Qc).
Qed.

Lemma rasterize_bev_unfold points reducer :
  resolution ≠ 0%Qc → (0 ≤ height)%Z → (0 ≤ width)%Z →
  rasterize_bev points extent resolution reducer
  = if decide (valid_points extent points = []) then
      Ok (zeros 0%Qc height width)
    else
      let start := (zeros 0%Qc height width, zeros 0%Z height width) in
      let pixels := valid_pixels extent resolution points in
      match reducer with
      | RMax => '(ig, _) ← for_each max_step pixels start; Ok ig
      | RMean =>
          '(ig, cg) ← for_each mean_step pixels start;
          Ok (divide_nonzero ig cg)
      | ROther => Ok (zeros 0%Qc height width)
      end.
Proof.
  intros Hres Hh Hw. unfold rasterize_bev.
  rewrite Qceqb_neq by done.
  rewrite !np_zeros_ok by done. rewrite !bind_Ok.
  destruct points as [|p points]; [done|].
  unfold valid_pixels, valid_points.
  destruct (filter _ (p :: points)) as [|v valid]; done.
Qed.

Lemma valid_pixels_in_grid points :
  (1 ≤ height)%Z → (1 ≤ width)%Z →
  Forall (in_grid (Z.to_nat height) (Z.to_nat width))
         (valid_pixels extent resolution points).
Proof.
  intros Hh Hw. unfold valid_pixels. apply Forall_fmap, Forall_forall.
  intros p _. unfold in_grid, to_pixel, pixel_x, pixel_y; simpl.
  pose proof (np_clip_range (raw_pixel_y extent resolution p) height Hh).
  pose proof (np_clip_range (raw_pixel_x extent resolution p) width Hw).
  fold height width. lia.
Qed.

Lemma zeros_tabulate {A : Type} (zero : A) (h w : Z) :
  zeros zero h w = tabulate (Z.to_nat h) (Z.to_nat w) (λ _ _, zero).
Proof. apply replicate_tabulate. Qed.

Lemma cell_intensities_nil points r c :
  valid_points extent points = [] →
  cell_intensities extent resolution points r c = [].
Proof.
  intros H. unfold cell_intensities, valid_pixels. by rewrite H.
Qed.

(** The max reducer on a grid with at least one cell. *)
Lemma rasterize_bev_max points :
  (1 ≤ height)%Z → (1 ≤ width)%Z → resolution ≠ 0%Qc →
  rasterize_bev points extent resolution RMax
  = Ok (tabulate (Z.to_nat height) (Z.to_nat width)
          (λ r c, fold_left py_max
                    (cell_intensities extent resolution points r c) 0%Qc)).
Proof.
  intros Hh Hw Hres. rewrite rasterize_bev_unfold by (done || lia).
  rewrite !zeros_tabulate. case_decide as Hv.
  - f_equal. apply tabulate_ext. intros r c _ _.
    by rewrite cell_intensities_nil.
  - cbv zeta. unfold max_step.
    rewrite accumulate_loop by (by apply valid_pixels_in_grid). done.
Qed.

(** The mean reducer on a grid with at least one cell. *)
Lemma rasterize_bev_mean points :
  (1 ≤ height)%Z → (1 ≤ width)%Z → resolution ≠ 0%Qc →
  rasterize_bev points extent resolution RMean
  = Ok (tabulate (Z.to_nat height) (Z.to_nat width)
          (λ r c,
             let values := cell_intensities extent resolution points r c in
             let total := fold_left Qcplus values 0%Qc in
             let count := wrap32 (Z.of_nat (length values)) in
             if (0 <? count)%Z then (total / Qc_of_Z count)%Qc else total)).
Proof.
  intros Hh Hw Hres. rewrite rasterize_bev_unfold by (done || lia).
  rewrite !zeros_tabulate. case_decide as Hv.
  - f_equal. apply tabulate_ext. intros r c _ _.
    by rewrite cell_intensities_nil.
  - cbv zeta. unfold mean_step.
    rewrite accumulate_loop by (by apply valid_pixels_in_grid).
    rewrite bind_Ok. unfold divide_nonzero. rewrite zip_with_tabulate.
    f_equal. apply tabulate_ext. intros r c _ _.
    by rewrite fold_count_0.
Qed.

Lemma rasterize_bev_other points :
  (0 ≤ height)%Z → (0 ≤ width)%Z → resolution ≠ 0%Qc →
  rasterize_bev points extent resolution ROther
  = Ok (zeros 0%Qc height width).
Proof.
  intros Hh Hw Hres. rewrite rasterize_bev_unfold by done.
  by case_decide.
Qed.

Lemma rasterize_bev_no_valid points reducer :
  (0 ≤ height)%Z → (0 ≤ width)%Z → resolution ≠ 0%Qc →
  valid_points extent points = [] →
  rasterize_bev points extent resolution reducer
  = Ok (zeros 0%Qc height width).
Proof.
  intros Hh Hw Hres Hv. rewrite rasterize_bev_unfold by done.
  by rewrite decide_True.
Qed.
End rasterize.

(** ** A grid without cells *)

Lemma np_index_empty (i : Z) : np_index 0 i = Raise IndexError.
Proof.
  unfold np_index.
  destruct (Z.leb_spec 0 i), (Z.ltb_spec i (Z.of_nat 0)),
    (Z.leb_spec (- Z.of_nat 0) i), (Z.ltb_spec i 0); simpl; try lia; done.
Qed.

Lemma grid_get_degenerate {A : Type} (zero : A) (h w r c : Z) :
  (h = 0 ∨ w = 0)%Z → grid_get (zeros zero h w) r c = Raise IndexError.
Proof.
  intros Hdeg. unfold grid_get, zeros.
  destruct (np_index _ r) as [i|e] eqn:Hi.
  - rewrite bind_Ok.
    destruct (replicate _ _ !! i) as [row|] eqn:Hrow; [|done].
    apply lookup_replicate in Hrow as [-> Hlt].
    rewrite length_replicate.
    destruct Hdeg as [->| ->]; [simpl in Hlt; lia|].
    simpl. by rewrite np_index_empty.
  - unfold np_index in Hi. repeat case_match; by simplify_eq.
Qed.

Lemma accumulate_degenerate f (h w : Z) (q : Pixel) :
  (h = 0 ∨ w = 0)%Z →
  accumulate f (zeros 0%Qc h w, zeros 0%Z h w) q = Raise IndexError.
Proof.
  intros Hdeg. unfold accumulate.
  by rewrite (grid_get_degenerate 0%Qc).
Qed.

Lemma rasterize_bev_degenerate points (extent : Extent) (resolution : Qc)
    reducer :
  let h := bev_height extent resolution in
  let w := bev_width extent resolution in
  resolution ≠ 0%Qc → (0 ≤ h)%Z → (0 ≤ w)%Z → (h = 0 ∨ w = 0)%Z →
  valid_points extent points ≠ [] → reducer ≠ ROther →
  rasterize_bev points extent resolution reducer = Raise IndexError.
Proof.
  intros h w Hres Hh Hw Hdeg Hv Hred.
  rewrite rasterize_bev_unfold by done. rewrite decide_False by done.
  cbv zeta. unfold valid_pixels.
  destruct (valid_points extent points) as [|p valid]; [done|].
  rewrite fmap_cons.
  destruct reducer; [| |done]; unfold max_step, mean_step;
    rewrite for_each_cons, accumulate_degenerate by done; done.
Qed.

Lemma zeros_shape {A : Type} (zero : A) (h w : Z) :
  has_shape (zeros zero h w) (Z.to_nat h) (Z.to_nat w).
Proof. rewrite zeros_tabulate. apply tabulate_shape. Qed.

(** Whenever [rasterize_bev] returns, the grid has the computed shape. *)
Lemma rasterize_bev_shape points extent resolution reducer g :
  rasterize_bev points extent resolution reducer = Ok g →
  has_shape g (Z.to_nat (bev_height extent resolution))
              (Z.to_nat (bev_width extent resolution)).
Proof.
  set (h := bev_height extent resolution).
  set (w := bev_width extent resolution).
  intros Hg.
  destruct (decide (resolution = 0%Qc)) as [Hres|Hres].
  { by rewrite rasterize_bev_zero_resolution in Hg. }
  destruct (decide (h < 0 ∨ w < 0)%Z) as [Hneg|Hneg].
  { by rewrite rasterize_bev_negative in Hg. }
  destruct (decide (valid_points extent points = [])) as [Hv|Hv].
  { rewrite rasterize_bev_no_valid in Hg by (done || lia).
    inversion Hg. apply zeros_shape. }
  destruct (decide (h = 0 ∨ w = 0)%Z) as [Hdeg|Hdeg].
  - destruct reducer.
    + by rewrite rasterize_bev_degenerate in Hg by (done || lia).
    + by rewrite rasterize_bev_degenerate in Hg by (done || lia).
    + rewrite rasterize_bev_other in Hg by (done || lia).
      inversion Hg. apply zeros_shape.
  - destruct reducer.
    + rewrite rasterize_bev_max in Hg by (done || lia).
      inversion Hg. apply tabulate_shape.
    + rewrite rasterize_bev_mean in Hg by (done || lia).
      inversion Hg. apply tabulate_shape.
    + rewrite rasterize_bev_other in Hg by (done || lia).
      inversion Hg. apply zeros_shape.
Qed.


(** ** Points outside the extent *)






(** ** The order on intensities *)

(** Case analysis on every comparison of the goal, then linear arithmetic
    on the underlying rationals. *)
Ltac qc_cases :=
  repeat match goal with
    | |- context [Qcltb ?a ?b] =>
        lazymatch a with context [Qcltb _ _] => fail | _ => idtac end;
        lazymatch b with context [Qcltb _ _] => fail | _ => idtac end;
        let H := fresh "Hcmp" in
        destruct (Qcltb a b) eqn:H;
        [apply Qcltb_lt in H | apply Qcltb_ge in H]
    end.

Ltac qc_order :=
  try done;
  try (apply Qc_is_canon);
  unfold Qclt, Qcle in *; lra.


Lemma py_max_comm (x y : Qc) : py_max x y = py_max y x.
Proof. unfold py_max. qc_cases; qc_order. Qed.

Lemma py_max_assoc (x y z : Qc) :
  py_max x (py_max y z) = py_max (py_max x y) z.
Proof. unfold py_max. qc_cases; qc_order. Qed.

Lemma py_max_idemp (x : Qc) : py_max x x = x.
Proof. unfold py_max. by rewrite Qcltb_irrefl. Qed.

Lemma py_max_ge_l (x y : Qc) : (x ≤ py_max x y)%Qc.
Proof. unfold py_max. qc_cases; qc_order. Qed.

Lemma py_max_ge_r (x y : Qc) : (y ≤ py_max x y)%Qc.
Proof. unfold py_max. qc_cases; qc_order. Qed.

Lemma py_max_cases (x y : Qc) : py_max x y = x ∨ py_max x y = y.
Proof. unfold py_max. destruct (Qcltb x y); auto. Qed.

Lemma fold_py_max_is_maximum (l : list Qc) (a : Qc) :
  is_maximum (fold_left py_max l a) (a :: l).
Proof.
  revert a. induction l as [|x l IH]; intros a; simpl.
  - split; [by left|]. intros y ->%list_elem_of_singleton. apply Qcle_refl.
  - destruct (IH (py_max a x)) as [Hin Hle]. split.
    + apply elem_of_cons in Hin as [Heq|Hin].
      * rewrite Heq. destruct (py_max_cases a x) as [-> | ->].
        -- by left.
        -- right. by left.
      * right. by right.
    + intros y Hy.
      assert (py_max a x ≤ fold_left py_max l (py_max a x))%Qc as Hm
        by (apply Hle; by left).
      apply elem_of_cons in Hy as [->|Hy].
      { eapply Qcle_trans; [apply py_max_ge_l|apply Hm]. }
      apply elem_of_cons in Hy as [->|Hy].
      { eapply Qcle_trans; [apply py_max_ge_r|apply Hm]. }
      apply Hle. by right.
Qed.


(** ** The max reducer *)

Lemma cell_intensities_points extent resolution points r c :
  cell_intensities extent resolution points r c
  = map pt_intensity (points_in_cell extent resolution points r c).
Proof.
  unfold cell_intensities, cell_values, valid_pixels, valid_points,
    points_in_cell.
  induction points as [|p points IH]; [done|].
  rewrite !filter_cons.
  destruct (decide (valid_mask extent p = true)) as [Hv|Hv].
  - rewrite fmap_cons, filter_cons.
    destruct (decide (at_cell r c (to_pixel extent resolution p)))
      as [Hc|Hc].
    + rewrite decide_True by (by split). rewrite !fmap_cons.
      f_equal. apply IH.
    + rewrite decide_False; [apply IH|]. intros [_ H]. by apply Hc.
  - rewrite decide_False; [apply IH|]. intros [H _]. by apply Hv.
Qed.




Lemma Qcdiv_zero (x : Qc) : (x / 0)%Qc = 0%Qc.
Proof.
  unfold Qcdiv. change (/ 0)%Qc with 0%Qc. apply Qcmult_0_r.
Qed.

(** A grid with at least one column has a non-zero resolution. *)
Lemma bev_width_resolution (extent : Extent) (resolution : Qc) :
  (1 ≤ bev_width extent resolution)%Z → resolution ≠ 0%Qc.
Proof.
  intros Hw ->. unfold bev_width in Hw. rewrite Qcdiv_zero in Hw.
  vm_compute in Hw. done.
Qed.



(** ** Clamped pixel indices *)








(** ** Composite mode *)

Lemma composite_merge_some reducer c gs :
  fold_left (composite_merge reducer) gs (Some c)
  = Some (fold_left (merge_of reducer) gs c).
Proof.
  revert c. induction gs as [|g gs IH]; intros c; [done|].
  simpl. rewrite <- IH. by destruct reducer.
Qed.

Lemma composite_of_cons reducer g gs :
  composite_of reducer (g :: gs) = Some (fold_left (merge_of reducer) gs g).
Proof. unfold composite_of. simpl. apply composite_merge_some. Qed.

Lemma main_composite_frame_grids frames extent resolution reducer :
  main_composite frames extent resolution reducer
  = composite_of reducer (frame_grids frames extent resolution reducer).
Proof.
  unfold main_composite, composite_of, frame_grids.
  generalize (@None Grid) as acc.
  induction frames as [|points frames IH]; intros acc; [done|].
  cbn [fold_left]. rewrite IH.
  change (omap ?f (points :: frames))
    with (match f points with
          | Some g => g :: omap f frames
          | None => omap f frames
          end).
  unfold frame_grid at 2.
  destruct points as [|p points]; [done|].
  by destruct (rasterize_bev (p :: points) extent resolution reducer).
Qed.

Lemma frame_grids_shape frames extent resolution reducer :
  Forall (λ g, has_shape g (Z.to_nat (bev_height extent resolution))
                           (Z.to_nat (bev_width extent resolution)))
         (frame_grids frames extent resolution reducer).
Proof.
  apply Forall_forall. intros g Hg. unfold frame_grids in Hg.
  apply list_elem_of_omap in Hg as (points & _ & Hg).
  unfold frame_grid in Hg. destruct points as [|p points]; [done|].
  destruct (rasterize_bev _ _ _ _) as [g'|e] eqn:Hr; [|done].
  simplify_eq. by eapply rasterize_bev_shape.
Qed.

Lemma cell_at_zip_with (op : Qc → Qc → Qc) (a b : Grid) h w r c :
  has_shape a h w → has_shape b h w → r < h → c < w →
  cell_at r c (zip_with (zip_with op) a b)
  = op (cell_at r c a) (cell_at r c b).
Proof.
  intros Ha Hb Hr Hc. unfold cell_at. rewrite cell_zip_with.
  destruct (has_shape_cell a h w r c Ha Hr Hc) as [x ->].
  destruct (has_shape_cell b h w r c Hb Hr Hc) as [y ->]. done.
Qed.

Lemma fold_elementwise_shape (op : Qc → Qc → Qc) h w gs :
  ∀ g,
    Forall (λ a : Grid, has_shape a h w) (g :: gs) →
    has_shape (fold_left (zip_with (zip_with op)) gs g) h w.
Proof.
  induction gs as [|g1 gs IH]; intros g Hall.
  - by apply Forall_cons in Hall as [Hg _].
  - apply Forall_cons in Hall as [Hg Hall].
    apply Forall_cons in Hall as [Hg1 Hgs].
    cbn [fold_left]. apply IH. apply Forall_cons. split; [|done].
    by apply has_shape_zip_with.
Qed.

(** Folding an elementwise merge over grids of one shape folds the scalar
    operation in every cell. *)
Lemma fold_elementwise (op : Qc → Qc → Qc) h w r c gs :
  ∀ g,
    Forall (λ a : Grid, has_shape a h w) (g :: gs) → r < h → c < w →
    cell (fold_left (zip_with (zip_with op)) gs g) r c
    = Some (fold_left op (map (cell_at r c) gs) (cell_at r c g)).
Proof.
  induction gs as [|g1 gs IH]; intros g Hall Hr Hc.
  - apply Forall_cons in Hall as [Hg _]. simpl.
    unfold cell_at. by destruct (has_shape_cell g h w r c Hg Hr Hc) as [x ->].
  - apply Forall_cons in Hall as [Hg Hall].
    apply Forall_cons in Hall as [Hg1 Hgs].
    cbn [fold_left map].
    rewrite <- (cell_at_zip_with op g g1 h w r c) by done.
    apply IH; [|done..]. apply Forall_cons. split; [|done].
    by apply has_shape_zip_with.
Qed.

Lemma zip_with_comm_pointwise {A : Type} (f : A → A → A) :
  (∀ x y, f x y = f y x) → ∀ l k, zip_with f l k = zip_with f k l.
Proof.
  intros Hf. induction l as [|x l IH]; intros [|y k]; simpl; [done..|].
  by rewrite Hf, IH.
Qed.

Lemma zip_with_assoc_pointwise {A : Type} (f : A → A → A) :
  (∀ x y z, f x (f y z) = f (f x y) z) →
  ∀ l k m, zip_with f l (zip_with f k m) = zip_with f (zip_with f l k) m.
Proof.
  intros Hf. induction l as [|x l IH]; intros [|y k] [|z m]; simpl; [done..|].
  by rewrite Hf, IH.
Qed.

Lemma np_maximum_comm (a b : Grid) : np_maximum a b = np_maximum b a.
Proof.
  apply zip_with_comm_pointwise, zip_with_comm_pointwise, py_max_comm.
Qed.

Lemma np_maximum_assoc (a b c : Grid) :
  np_maximum a (np_maximum b c) = np_maximum (np_maximum a b) c.
Proof.
  apply zip_with_assoc_pointwise, zip_with_assoc_pointwise, py_max_assoc.
Qed.

Lemma fold_np_maximum_perm (gs gs' : list Grid) :
  gs ≡ₚ gs' → ∀ g, fold_left np_maximum gs g = fold_left np_maximum gs' g.
Proof.
  induction 1 as [|x l l' _ IH|x y l|l l' l'' _ IH1 _ IH2]; intros g; simpl.
  - done.
  - apply IH.
  - f_equal. rewrite <- !np_maximum_assoc. f_equal. apply np_maximum_comm.
  - by rewrite IH1.
Qed.

Lemma composite_max_perm (grids grids' : list Grid) :
  grids ≡ₚ grids' → composite_of RMax grids = composite_of RMax grids'.
Proof.
  induction 1 as [|x l l' Hp IH|x y l|l l' l'' _ IH1 _ IH2].
  - done.
  - rewrite !composite_of_cons. f_equal. by apply fold_np_maximum_perm.
  - rewrite !composite_of_cons. simpl. f_equal. f_equal.
    apply np_maximum_comm.
  - by rewrite IH1.
Qed.

(** C7.  In composite mode with the max reducer the merge of two grids is
    their elementwise maximum, it is commutative and associative, the
    composite does not depend on the order in which the per-frame grids are
    merged, and every cell of the composite of frames of one shape holds the
    maximum of that cell over all per-frame grids.  The frame loop of
    [main] computes this composite of the grids of its frames, which all
    have the shape given by the extent and the resolution. *)
Theorem max_composite :
  (∀ a b : Grid, np_maximum a b = np_maximum b a) ∧
  (∀ a b c : Grid,
      np_maximum a (np_maximum b c) = np_maximum (np_maximum a b) c) ∧
  (∀ a b : Grid,
      composite_of RMax [a; b] = Some (np_maximum a b) ∧
      composite_of RMax [b; a] = Some (np_maximum a b)) ∧
  (∀ (a b : Grid) r c,
      cell (np_maximum a b) r c
      = x ← cell a r c; y ← cell b r c; Some (py_max x y)) ∧
  (∀ grids grids' : list Grid,
      grids ≡ₚ grids' → composite_of RMax grids = composite_of RMax grids') ∧
  (∀ (g : Grid) (gs : list Grid) h w,
      Forall (λ a : Grid, has_shape a h w) (g :: gs) →
      ∃ m,
        composite_of RMax (g :: gs) = Some m ∧
        has_shape m h w ∧
        ∀ r c, r < h → c < w →
          ∃ v, cell m r c = Some v ∧
               is_maximum v (map (cell_at r c) (g :: gs))) ∧
  (∀ frames extent resolution,
      main_composite frames extent resolution RMax
      = composite_of RMax (frame_grids frames extent resolution RMax) ∧
      Forall (λ g, has_shape g (Z.to_nat (bev_height extent resolution))
                               (Z.to_nat (bev_width extent resolution)))
             (frame_grids frames extent resolution RMax)).
Proof.
  split_and!.
  - apply np_maximum_comm.
  - apply np_maximum_assoc.
  - intros a b. split; [done|]. rewrite np_maximum_comm. done.
  - intros a b r c. apply cell_zip_with.
  - apply composite_max_perm.
  - intros g gs h w Hall. eexists. split; [apply composite_of_cons|].
    simpl. unfold np_maximum. split.
    + by apply fold_elementwise_shape.
    + intros r c Hr Hc. eexists. split.
      * by apply (fold_elementwise py_max h w).
      * apply fold_py_max_is_maximum.
  - intros frames extent resolution. split.
    + apply main_composite_frame_grids.
    + apply frame_grids_shape.
Qed.

Lemma max_composite_witness :
  composite_of RMax [grid_of [[1; 5]]%Q; grid_of [[3; 2]]%Q]
  = composite_of RMax [grid_of [[3; 2]]%Q; grid_of [[1; 5]]%Q] ∧
  ∃ m, composite_of RMax [grid_of [[1; 5]]%Q; grid_of [[3; 2]]%Q] = Some m.
Proof.
  destruct max_composite as (_ & _ & _ & _ & Hperm & Hcells & _). split.
  - apply Hperm. apply perm_swap.
  - destruct (Hcells (grid_of [[1; 5]]%Q) [grid_of [[3; 2]]%Q] 1 2)
      as (m & Hm & _).
    + repeat constructor.
    + exists m. exact Hm.
Defined.

(** ** Composite mode with the mean reducer *)

Lemma average_half (x y : Qc) : ((x + y) / Qc_of_Z 2 = (x + y) * half)%Qc.
Proof. unfold Qcdiv. f_equal; by apply Qc_is_canon. Qed.

Lemma weight_first (n : nat) : weight (S n) 0 = (half ^ n)%Qc.
Proof. unfold weight. f_equal. simpl. lia. Qed.

Lemma weight_later (n k : nat) : 1 ≤ k → weight n k = (half ^ (n - k))%Qc.
Proof. intros Hk. unfold weight. f_equal. lia. Qed.

Lemma weighted_sum_shift (n : nat) (values : list Qc) :
  ∀ k, 1 ≤ k → weighted_sum (S n) (S k) values = weighted_sum n k values.
Proof.
  induction values as [|v values IH]; intros k Hk; simpl; [done|].
  rewrite IH by lia. f_equal. f_equal.
  rewrite !weight_later by lia. f_equal.
Qed.

Lemma fold_average (values : list Qc) :
  ∀ v0,
    fold_left (λ x y, (x + y) / Qc_of_Z 2)%Qc values v0
    = weighted_sum (S (length values)) 0 (v0 :: values).
Proof.
  induction values as [|v values IH]; intros v0.
  - simpl. rewrite weight_first. simpl. ring.
  - cbn [fold_left]. rewrite IH. cbn [weighted_sum length].
    rewrite (weighted_sum_shift (S (length values)) values 1) by lia.
    rewrite !weight_first, weight_later by lia.
    replace (S (S (length values)) - 1) with (S (length values)) by lia.
    rewrite average_half. simpl. ring.
Qed.

Lemma half_pos : (0 < half)%Qc.
Proof. by apply Qcltb_lt. Qed.

Lemma half_pow_pos (n : nat) : (0 < half ^ n)%Qc.
Proof.
  induction n as [|n IH]; simpl; [by apply Qcltb_lt|].
  rewrite <- (Qcmult_0_l (half ^ n)).
  apply Qcmult_lt_compat_r; [done|apply half_pos].
Qed.

Lemma half_pow_succ_lt (n : nat) : (half ^ S n < half ^ n)%Qc.
Proof.
  simpl. rewrite <- (Qcmult_1_l (half ^ n)) at 2.
  apply Qcmult_lt_compat_r; [apply half_pow_pos|by apply Qcltb_lt].
Qed.

Lemma half_pow_lt (a b : nat) : b < a → (half ^ a < half ^ b)%Qc.
Proof.
  induction 1 as [|a _ IH]; [apply half_pow_succ_lt|].
  eapply Qclt_trans; [apply half_pow_succ_lt|apply IH].
Qed.

Lemma half_pow_two (n : nat) : (half ^ n * 2 ^ n = 1)%Qc.
Proof.
  induction n as [|n IH]; simpl; [by apply Qc_is_canon|].
  replace (half * half ^ n * (2 * 2 ^ n))%Qc
    with ((half * 2) * (half ^ n * 2 ^ n))%Qc by ring.
  rewrite IH. by apply Qc_is_canon.
Qed.

(** C8 (amended).  In composite mode with the mean reducer each new grid is
    merged by pairwise averaging with the running composite.  With the
    frames counted from 0, every cell of the composite of [n] frames of one
    shape is the weighted sum of that cell over the frames, where frame 0
    and frame 1 both weigh [1 / 2^(n-1)] and frame [k >= 1] weighs
    [1 / 2^(n-k)]; that is, counted from 1, frame [k >= 2] weighs
    [1 / 2^(n-k+1)].  Every frame from the third on weighs strictly more
    than each earlier frame.  For three frames with cell values 0, 0, 1 the
    composite is 1/2 and the true mean is 1/3. *)
Theorem mean_composite :
  (∀ a b : Grid, composite_of RMean [a; b] = Some (pairwise_average a b)) ∧
  (∀ (g : Grid) (gs : list Grid) h w,
      Forall (λ a : Grid, has_shape a h w) (g :: gs) →
      ∃ m,
        composite_of RMean (g :: gs) = Some m ∧
        m = fold_left pairwise_average gs g ∧
        has_shape m h w ∧
        ∀ r c, r < h → c < w →
          cell m r c
          = Some (weighted_sum (S (length gs)) 0
                    (map (cell_at r c) (g :: gs)))) ∧
  (∀ n, (weight (S n) 0 * 2 ^ n = 1)%Qc) ∧
  (∀ n k, 1 ≤ k → k ≤ n → (weight n k * 2 ^ (n - k) = 1)%Qc) ∧
  (∀ n, 2 ≤ n → weight n 0 = weight n 1) ∧
  (∀ n j k, j < k → 2 ≤ k → k < n → (weight n j < weight n k)%Qc) ∧
  (composite_value RMean [0; 0; 1]%Q = Some (1 # 2)%Q ∧
   this (true_mean (map qc [0; 0; 1]%Q)) = (1 # 3)%Q) ∧
  (∀ frames extent resolution,
      main_composite frames extent resolution RMean
      = composite_of RMean (frame_grids frames extent resolution RMean)).
Proof.
  split_and!.
  - done.
  - intros g gs h w Hall. eexists. split; [apply composite_of_cons|].
    simpl. split; [done|]. unfold pairwise_average. split.
    + by apply fold_elementwise_shape.
    + intros r c Hr Hc.
      rewrite (fold_elementwise _ h w) by done.
      by rewrite fold_average, length_map.
  - intros n. rewrite weight_first. apply half_pow_two.
  - intros n k Hk Hkn. rewrite weight_later by done. apply half_pow_two.
  - intros n Hn. unfold weight. f_equal.
  - intros n j k Hjk Hk Hkn. unfold weight. apply half_pow_lt. lia.
  - reflexivity.
  - reflexivity.
  - intros frames extent resolution. apply main_composite_frame_grids.
Qed.

Lemma mean_composite_witness :
  ∃ m, composite_of RMean [grid_of [[1; 5]]%Q; grid_of [[3; 2]]%Q] = Some m ∧
  (weight 3 1 < weight 3 2)%Qc.
Proof.
  destruct mean_composite as (_ & Hcells & _ & _ & _ & Hlt & _).
  destruct (Hcells (grid_of [[1; 5]]%Q) [grid_of [[3; 2]]%Q] 1 2)
    as (m & Hm & _).
  - repeat constructor.
  - exists m. split; [exact Hm|]. apply Hlt; lia.
Defined.

(** C8, as stated, fails on both counts.  With three frames, the last one
    weighs 1/2 and not [1 / 2^(3-3) = 1]; and the second frame does not
    weigh more than the first: both weigh 1/4. *)
Lemma mean_composite_claimed_weights :
  composite_value RMean [0; 0; 1]%Q = Some (1 # 2)%Q ∧
  this (claimed_weight 3 3) = 1%Q ∧
  composite_value RMean [0; 0; 1]%Q ≠ Some (this (claimed_weight 3 3)) ∧
  composite_value RMean [1; 0; 0]%Q = Some (1 # 4)%Q ∧
  composite_value RMean [0; 1; 0]%Q = Some (1 # 4)%Q.
Proof. split_and!; try reflexivity. by vm_compute. Qed.

(** ** Minmax normalization *)









Lemma map_map_ext_in {A B : Type} (f f' : A → B) (g : list (list A)) :
  (∀ row v, row ∈ g → v ∈ row → f v = f' v) →
  map (map f) g = map (map f') g.
Proof.
  intros H. apply map_ext_in. intros row Hrow. apply map_ext_in.
  intros v Hv. apply (H row); by apply list_elem_of_In.
Qed.

Lemma cell_map {A B : Type} (f : A → B) (g : list (list A)) r c :
  cell (map (map f) g) r c = f <$> cell g r c.
Proof.
  unfold cell. rewrite list_lookup_fmap.
  destruct (g !! r) as [row|]; [|done]. simpl. apply list_lookup_fmap.
Qed.

(** ** Percentile normalization *)

Lemma no_positive_cell (l : list Qc) :
  Forall (λ v, (v ≤ 0)%Qc) l → filter (λ v, Qcltb 0 v = true) l = [].
Proof.
  induction 1 as [|v l Hv _ IH]; [done|].
  rewrite filter_cons, decide_False; [done|].
  rewrite Qcltb_lt. by apply Qcle_not_lt.
Qed.





(** C3 (the code against the claim).  On a grid without a cell greater than
    0, percentile normalization does not return the all-zero image: the
    percentile of the empty selection raises an [IndexError].  The minmax
    branch returns the all-zero image on the same all-zero grid. *)
Theorem percentile_empty_selection (g : Grid) :
  Forall (λ v, (v ≤ 0)%Qc) (concat g) →
  normalize_intensity g MPercentile = Raise IndexError ∧
  normalize_intensity (grid_of [[0; 0]; [0; 0]]%Q) MPercentile
    = Raise IndexError ∧
  normalize_intensity (grid_of [[0; 0]; [0; 0]]%Q) MMinmax
    = Ok [[0; 0]; [0; 0]]%Z.
Proof.
  intros Hall. split_and!; [|reflexivity..].
  unfold normalize_intensity. by rewrite no_positive_cell.
Qed.

Lemma percentile_empty_selection_witness :
  normalize_intensity (grid_of [[0; -3]; [0; 0]]%Q) MPercentile
  = Raise IndexError.
Proof.
  apply (percentile_empty_selection (grid_of [[0; -3]; [0; 0]]%Q)).
  repeat (constructor; [by apply Qcleb_le|]). constructor.
Defined.

(** * Properties of the floating-point reading *)

(** ** Floating-point numbers *)

Lemma fp_sub_diag (prec emax : Z) (x : FP.float) :
  FP.is_finite x = true → SFsub prec emax x x = FP.zero.
Proof.
  destruct x as [[]|[]| |s m e]; try done. intros _.
  unfold SFsub. by rewrite Z.sub_diag.
Qed.

Lemma fp_div_zero (prec emax : Z) (x r : FP.float) :
  FP.is_zero x = true → FP.is_zero r = false → FP.is_nan r = false →
  FP.is_zero (SFdiv prec emax x r) = true.
Proof. by destruct x, r. Qed.

Lemma fp_astype_int_zero (bits : Z) (x : FP.float) :
  (1 ≤ bits)%Z → FP.is_zero x = true → FP.astype_int bits x = 0%Z.
Proof.
  intros Hbits Hx. destruct x; try done. unfold FP.astype_int. simpl.
  assert (0 < 2 ^ (bits - 1))%Z by (apply Z.pow_pos_nonneg; lia).
  destruct (Z.leb_spec (- 2 ^ (bits - 1)) 0), (Z.ltb_spec 0 (2 ^ (bits - 1)));
    simpl; lia.
Qed.

Lemma fp_compare_refl (x : FP.float) :
  SFcompare x x = Some Eq ∨ SFcompare x x = None.
Proof.
  destruct x as [[]|[]| |[] m e]; simpl; auto;
    rewrite Z.compare_refl, Pos.compare_cont_refl; auto.
Qed.

Lemma fp_ltb_irrefl (x : FP.float) : SFltb x x = false.
Proof.
  unfold SFltb. by destruct (fp_compare_refl x) as [-> | ->].
Qed.

(** The integer part of a number that is not negative is the floor of its
    value. *)
Lemma fp_trunc_floor (x : FP.float) :
  FP.is_finite x = true → (0 <= FP.value x)%Q →
  FP.trunc x = Qfloor (FP.value x).
Proof.
  destruct x as [s| | |s m e]; try done. intros _ Hpos.
  destruct s.
  { exfalso. simpl in Hpos.
    assert (0 < 2 ^ e)%Q as H2 by (by apply Qpower_0_lt).
    assert (inject_Z (Z.neg m) < 0)%Q as Hm by (unfold Qlt; simpl; lia).
    apply (Qmult_lt_compat_r _ _ _ H2) in Hm. rewrite Qmult_0_l in Hm.
    by apply Qlt_not_le in Hm. }
  unfold FP.trunc, FP.value, cond_Zopp. destruct e as [|p|p].
  - rewrite Z.shiftl_0_r. simpl (2 ^ 0)%Q. rewrite Qmult_1_r.
    by rewrite Qfloor_Z.
  - rewrite Z.shiftl_mul_pow2 by lia.
    rewrite <- (Qfloor_Z (Z.pos m * 2 ^ Z.pos p)). apply Qfloor_comp.
    rewrite inject_Z_mult. apply Qmult_comp; [done|].
    change 2%Q with (inject_Z 2). by rewrite <- Zpower_Qpower by lia.
  - rewrite Z.shiftr_div_pow2 by lia.
    assert (0 < 2 ^ Z.pos p)%Z as Hpow by (apply Z.pow_pos_nonneg; lia).
    destruct (2 ^ Z.pos p)%Z as [|d|d] eqn:Hd; try lia.
    change (Z.pos m / Z.pos d)%Z with (Qfloor (Z.pos m # d)).
    apply Qfloor_comp.
    change (Z.neg p) with (- Z.pos p)%Z. rewrite Qpower_opp.
    change 2%Q with (inject_Z 2). rewrite <- Zpower_Qpower by lia.
    rewrite Hd. rewrite (Qmake_Qdiv (Z.pos m) d). done.
Qed.

(** A rounded result carries the sign it is given, and a quotient the
    product of the signs. *)
Lemma fp_round_sign prec emax s m e l :
  binary_round_aux prec emax s m e l = S754_nan ∨
  FP.sign (binary_round_aux prec emax s m e l) = s.
Proof.
  unfold binary_round_aux.
  destruct (shr_fexp prec emax m e l) as [mrs' e'].
  destruct (shr_fexp prec emax _ e' loc_Exact) as [mrs'' e''].
  destruct (shr_m mrs''); auto.
  destruct (e'' <=? emax - prec)%Z; auto.
Qed.

Lemma fp_div_sign prec emax (x y : FP.float) :
  SFdiv prec emax x y = S754_nan ∨
  FP.sign (SFdiv prec emax x y) = xorb (FP.sign x) (FP.sign y).
Proof.
  destruct x as [sx|sx| |sx mx ex], y as [sy|sy| |sy my ey]; simpl; auto.
  destruct (SFdiv_core_binary prec emax (Z.pos mx) ex (Z.pos my) ey)
    as [[mz ez] lz].
  apply fp_round_sign.
Qed.

Lemma fp_value_sign (x : FP.float) :
  FP.sign x = false → (0 <= FP.value x)%Q.
Proof.
  destruct x as [s|s| |s m e]; simpl; try done. intros ->. simpl.
  apply Qmult_le_0_compat; [unfold Qle; simpl; lia|].
  apply Qlt_le_weak. by apply Qpower_0_lt.
Qed.

(** The quotient of two numbers without sign bit is not negative. *)
Lemma fp_div_nonneg prec emax (d r : FP.float) :
  FP.sign d = false → FP.sign r = false →
  FP.is_finite (SFdiv prec emax d r) = true →
  (0 <= FP.value (SFdiv prec emax d r))%Q.
Proof.
  intros Hd Hr Hfin. apply fp_value_sign.
  destruct (fp_div_sign prec emax d r) as [Hnan|Hsign].
  - by rewrite Hnan in Hfin.
  - by rewrite Hsign, Hd, Hr.
Qed.

(** The cast of a finite number whose integer part is in the range of the
    integer type. *)
Lemma fp_astype_int_trunc (bits : Z) (x : FP.float) :
  FP.is_finite x = true →
  (- 2 ^ (bits - 1) ≤ FP.trunc x < 2 ^ (bits - 1))%Z →
  FP.astype_int bits x = FP.trunc x.
Proof.
  intros Hfin Hrange. unfold FP.astype_int. rewrite Hfin.
  destruct (Z.leb_spec (- 2 ^ (bits - 1)) (FP.trunc x)),
    (Z.ltb_spec (FP.trunc x) (2 ^ (bits - 1))); simpl; lia.
Qed.

(** ** The reducer loops on float32 grids *)

Lemma fp_accumulate_tabulate f h w (fi : nat → nat → FP.float) fc q :
  FP.in_grid h w q →
  FP.accumulate f (tabulate h w fi, tabulate h w fc) q
  = Ok (tabulate h w
          (update fi (Z.to_nat (FP.pix_y q)) (Z.to_nat (FP.pix_x q))
             (f (fi (Z.to_nat (FP.pix_y q)) (Z.to_nat (FP.pix_x q)))
                (FP.pix_intensity q))),
        tabulate h w
          (update fc (Z.to_nat (FP.pix_y q)) (Z.to_nat (FP.pix_x q))
             (wrap32 (fc (Z.to_nat (FP.pix_y q)) (Z.to_nat (FP.pix_x q))
                      + 1)))).
Proof.
  intros [Hy Hx]. unfold FP.accumulate.
  rewrite grid_get_tabulate by done. simpl.
  rewrite grid_set_tabulate by done. simpl.
  rewrite grid_get_tabulate by done. simpl.
  rewrite grid_set_tabulate by done. done.
Qed.

Lemma fp_fold_cell_cons {A : Type} (k : A → FP.float → A)
    (g : nat → nat → A) (q : FP.Pixel) (pixels : list FP.Pixel)
    (r c : nat) :
  (0 ≤ FP.pix_y q)%Z → (0 ≤ FP.pix_x q)%Z →
  fold_left k (FP.cell_values pixels r c)
    (update g (Z.to_nat (FP.pix_y q)) (Z.to_nat (FP.pix_x q))
       (k (g (Z.to_nat (FP.pix_y q)) (Z.to_nat (FP.pix_x q)))
          (FP.pix_intensity q))
       r c)
  = fold_left k (FP.cell_values (q :: pixels) r c) (g r c).
Proof.
  intros Hy Hx. unfold FP.cell_values, update. rewrite filter_cons.
  destruct (decide (FP.at_cell r c q)) as [[Hr Hc]|Hne].
  - rewrite decide_True by lia. simpl.
    replace (Z.to_nat (FP.pix_y q)) with r by lia.
    replace (Z.to_nat (FP.pix_x q)) with c by lia. done.
  - rewrite decide_False; [done|]. intros [-> ->]. apply Hne.
    split; lia.
Qed.

Lemma fp_accumulate_loop f h w pixels :
  Forall (FP.in_grid h w) pixels →
  ∀ fi fc,
    for_each (FP.accumulate f) pixels (tabulate h w fi, tabulate h w fc)
    = Ok (tabulate h w
            (λ r c, fold_left f (FP.cell_values pixels r c) (fi r c)),
          tabulate h w
            (λ r c, fold_left (λ n _, wrap32 (n + 1))
                              (FP.cell_values pixels r c) (fc r c))).
Proof.
  induction 1 as [|q pixels Hq _ IH]; intros fi fc; [done|].
  rewrite for_each_cons, fp_accumulate_tabulate, bind_Ok, IH by done.
  destruct Hq as [Hy Hx].
  f_equal. f_equal; apply tabulate_ext; intros r c _ _.
  - apply fp_fold_cell_cons; lia.
  - apply (fp_fold_cell_cons (λ n _, wrap32 (n + 1))); lia.
Qed.

Lemma fp_accumulate_degenerate f (h w : Z) (q : FP.Pixel) :
  (h = 0 ∨ w = 0)%Z →
  FP.accumulate f (zeros FP.zero h w, zeros 0%Z h w) q = Raise IndexError.
Proof.
  intros Hdeg. unfold FP.accumulate.
  by rewrite (grid_get_degenerate FP.zero).
Qed.

(** ** [rasterize_bev] in floating point, case by case *)

Section fp_rasterize.
Variables (extent : FP.Extent) (resolution : FP.float) (width height : Z).
Hypothesis Hwidth : FP.bev_width extent resolution = Ok width.
Hypothesis Hheight : FP.bev_height extent resolution = Ok height.

Lemma fp_rasterize_bev_negative points reducer :
  (height < 0 ∨ width < 0)%Z →
  FP.rasterize_bev points extent resolution reducer = Raise ValueError.
Proof.
  intros Hneg. unfold FP.rasterize_bev.
  rewrite Hwidth, Hheight, !bind_Ok.
  by rewrite (np_zeros_negative FP.zero).
Qed.

Lemma fp_rasterize_bev_unfold points reducer :
  (0 ≤ height)%Z → (0 ≤ width)%Z →
  FP.rasterize_bev points extent resolution reducer
  = if decide (FP.valid_points extent points = []) then
      Ok (zeros FP.zero height width)
    else
      let start := (zeros FP.zero height width, zeros 0%Z height width) in
      let pixels := map (FP.to_pixel extent resolution width height)
                        (FP.valid_points extent points) in
      match reducer with
      | RMax => '(ig, _) ← for_each FP.max_step pixels start; Ok ig
      | RMean =>
          '(ig, cg) ← for_each FP.mean_step pixels start;
          Ok (FP.divide_nonzero ig cg)
      | ROther => Ok (zeros FP.zero height width)
      end.
Proof.
  intros Hh Hw. unfold FP.rasterize_bev.
  rewrite Hwidth, Hheight, !bind_Ok.
  rewrite !np_zeros_ok by done. rewrite !bind_Ok.
  destruct points as [|p points]; [done|].
  unfold FP.valid_points.
  destruct (filter _ (p :: points)) as [|v valid]; done.
Qed.

Lemma fp_valid_pixels_in_grid points :
  (1 ≤ height)%Z → (1 ≤ width)%Z →
  Forall (FP.in_grid (Z.to_nat height) (Z.to_nat width))
         (map (FP.to_pixel extent resolution width height) points).
Proof.
  intros Hh Hw. apply Forall_fmap, Forall_forall.
  intros p _. unfold FP.in_grid, FP.to_pixel, FP.pixel_x, FP.pixel_y; simpl.
  pose proof (np_clip_range (FP.raw_pixel_y extent resolution p) height Hh).
  pose proof (np_clip_range (FP.raw_pixel_x extent resolution p) width Hw).
  lia.
Qed.

Lemma fp_cell_intensities_nil points r c :
  FP.valid_points extent points = [] →
  FP.cell_intensities extent resolution width height points r c = [].
Proof. intros H. unfold FP.cell_intensities. by rewrite H. Qed.

(** The max reducer on a grid with at least one cell. *)
Lemma fp_rasterize_bev_max points :
  (1 ≤ height)%Z → (1 ≤ width)%Z →
  FP.rasterize_bev points extent resolution RMax
  = Ok (tabulate (Z.to_nat height) (Z.to_nat width)
          (λ r c, fold_left FP.py_max
                    (FP.cell_intensities extent resolution width height
                                         points r c) FP.zero)).
Proof.
  intros Hh Hw. rewrite fp_rasterize_bev_unfold by lia.
  rewrite !zeros_tabulate. case_decide as Hv.
  - f_equal. apply tabulate_ext. intros r c _ _.
    by rewrite fp_cell_intensities_nil.
  - cbv zeta. unfold FP.max_step.
    rewrite fp_accumulate_loop by (by apply fp_valid_pixels_in_grid). done.
Qed.

(** The mean reducer on a grid with at least one cell. *)
Lemma fp_rasterize_bev_mean points :
  (1 ≤ height)%Z → (1 ≤ width)%Z →
  FP.rasterize_bev points extent resolution RMean
  = Ok (tabulate (Z.to_nat height) (Z.to_nat width)
          (λ r c,
             let values := FP.cell_intensities extent resolution width height
                                               points r c in
             let total := fold_left FP.f32_add values FP.zero in
             let count := wrap32 (Z.of_nat (length values)) in
             if (0 <? count)%Z then FP.divide total count else total)).
Proof.
  intros Hh Hw. rewrite fp_rasterize_bev_unfold by lia.
  rewrite !zeros_tabulate. case_decide as Hv.
  - f_equal. apply tabulate_ext. intros r c _ _.
    by rewrite fp_cell_intensities_nil.
  - cbv zeta. unfold FP.mean_step.
    rewrite fp_accumulate_loop by (by apply fp_valid_pixels_in_grid).
    rewrite bind_Ok. unfold FP.divide_nonzero. rewrite zip_with_tabulate.
    f_equal. apply tabulate_ext. intros r c _ _.
    by rewrite fold_count_0.
Qed.

Lemma fp_rasterize_bev_easy points reducer :
  (0 ≤ height)%Z → (0 ≤ width)%Z →
  FP.valid_points extent points = [] ∨ reducer = ROther →
  FP.rasterize_bev points extent resolution reducer
  = Ok (zeros FP.zero height width).
Proof.
  intros Hh Hw Heasy. rewrite fp_rasterize_bev_unfold by done.
  case_decide; [done|]. by destruct Heasy as [?| ->].
Qed.

Lemma fp_rasterize_bev_degenerate points reducer :
  (0 ≤ height)%Z → (0 ≤ width)%Z → (height = 0 ∨ width = 0)%Z →
  FP.valid_points extent points ≠ [] → reducer ≠ ROther →
  FP.rasterize_bev points extent resolution reducer = Raise IndexError.
Proof.
  intros Hh Hw Hdeg Hv Hred.
  rewrite fp_rasterize_bev_unfold by done. rewrite decide_False by done.
  cbv zeta.
  destruct (FP.valid_points extent points) as [|p valid]; [done|].
  rewrite fmap_cons.
  destruct reducer; [| |done]; unfold FP.max_step, FP.mean_step;
    rewrite for_each_cons, fp_accumulate_degenerate by done; done.
Qed.

(** Whenever [rasterize_bev] returns, the grid has the computed shape. *)
Lemma fp_rasterize_bev_shape points reducer g :
  FP.rasterize_bev points extent resolution reducer = Ok g →
  has_shape g (Z.to_nat height) (Z.to_nat width).
Proof.
  intros Hg.
  destruct (decide (height < 0 ∨ width < 0)%Z) as [Hneg|Hneg].
  { by rewrite fp_rasterize_bev_negative in Hg. }
  destruct (decide (FP.valid_points extent points = [])) as [Hv|Hv].
  { rewrite fp_rasterize_bev_easy in Hg by (auto || lia).
    injection Hg as <-. apply zeros_shape. }
  assert (reducer = ROther ∨ reducer ≠ ROther) as [Hred|Hred]
    by (destruct reducer; auto).
  { rewrite fp_rasterize_bev_easy in Hg by (auto || lia).
    injection Hg as <-. apply zeros_shape. }
  destruct (decide (height = 0 ∨ width = 0)%Z) as [Hdeg|Hdeg].
  { by rewrite fp_rasterize_bev_degenerate in Hg by (done || lia). }
  destruct reducer; [| |done].
  - rewrite fp_rasterize_bev_max in Hg by lia.
    injection Hg as <-. apply tabulate_shape.
  - rewrite fp_rasterize_bev_mean in Hg by lia.
    injection Hg as <-. apply tabulate_shape.
Qed.
End fp_rasterize.

(** ** Grid dimensions *)

(** [int(d / resolution)] on Python floats. *)
Lemma fp_int_quotient (d resolution : FP.float) (n : Z) :
  (q ← FP.py_truediv d resolution; FP.py_int q) = Ok n
  ↔ FP.is_zero resolution = false ∧
    FP.is_finite (FP.f64_div d resolution) = true ∧
    n = FP.trunc (FP.f64_div d resolution).
Proof.
  unfold FP.py_truediv.
  destruct (FP.is_zero resolution).
  { split; [done|]. by intros [? _]. }
  rewrite bind_Ok. unfold FP.py_int.
  destruct (FP.f64_div d resolution) as [s|s| |s m e]; simpl;
    split; try done; try (by intros (_ & ? & _));
    try (by intros [= <-]); by intros (_ & _ & ->).
Qed.

(** [int(d / resolution) + 1] on numpy float64 scalars. *)
Lemma fp_laz_size (d resolution : FP.float) (n : Z) :
  (k ← FP.py_int (FP.f64_div d resolution); Ok (k + 1)%Z) = Ok n
  ↔ FP.is_finite (FP.f64_div d resolution) = true ∧
    n = (FP.trunc (FP.f64_div d resolution) + 1)%Z.
Proof.
  unfold FP.py_int.
  destruct (FP.f64_div d resolution) as [s|s| |s m e]; simpl;
    split; try done; try (by intros [? _]);
    try (by intros [= <-]); by intros (_ & ->).
Qed.

(** C1 (amended).  [rasterize_bev] sizes its grid as
    [width = int((xmax - xmin) / resolution)] and
    [height = int((ymax - ymin) / resolution)], computed on Python floats:
    the integer part of the rounded quotient, which is its floor when the
    quotient is not negative, as it is when neither the resolution nor the
    difference of the bounds is negative, and every grid that
    [rasterize_bev] returns has that shape.  The extent (-80, 80, -80, 80) at resolution 0.2 gives
    800 by 800.  The rounding of the quotient can cross an integer: the
    extent (0, 0.3, 0, 0.3) at resolution 0.1 gives 2 by 2, where the floor
    of the quotient of the decimal numbers is 3.  convert_laz_to_png.py
    sizes its raster one larger in each direction. *)
Theorem grid_dimensions (extent : FP.Extent) (resolution : FP.float) :
  let qw := FP.f64_div (FP.f64_sub (FP.xmax extent) (FP.xmin extent))
                       resolution in
  let qh := FP.f64_div (FP.f64_sub (FP.ymax extent) (FP.ymin extent))
                       resolution in
  (∀ points reducer g,
      FP.rasterize_bev points extent resolution reducer = Ok g →
      ∃ width height,
        FP.bev_width extent resolution = Ok width ∧
        FP.bev_height extent resolution = Ok height ∧
        has_shape g (Z.to_nat height) (Z.to_nat width)) ∧
  (∀ width,
      FP.bev_width extent resolution = Ok width
      ↔ FP.is_zero resolution = false ∧ FP.is_finite qw = true ∧
        width = FP.trunc qw) ∧
  (∀ height,
      FP.bev_height extent resolution = Ok height
      ↔ FP.is_zero resolution = false ∧ FP.is_finite qh = true ∧
        height = FP.trunc qh) ∧
  (FP.is_finite qw = true → (0 <= FP.value qw)%Q →
   FP.trunc qw = Qfloor (FP.value qw)) ∧
  (FP.is_finite qh = true → (0 <= FP.value qh)%Q →
   FP.trunc qh = Qfloor (FP.value qh)) ∧
  (FP.sign resolution = false →
   (FP.sign (FP.f64_sub (FP.xmax extent) (FP.xmin extent)) = false →
    FP.is_finite qw = true → (0 <= FP.value qw)%Q) ∧
   (FP.sign (FP.f64_sub (FP.ymax extent) (FP.ymin extent)) = false →
    FP.is_finite qh = true → (0 <= FP.value qh)%Q)) ∧
  (∀ width,
      FP.laz_width extent resolution = Ok width
      ↔ FP.is_finite qw = true ∧ width = (FP.trunc qw + 1)%Z) ∧
  (∀ height,
      FP.laz_height extent resolution = Ok height
      ↔ FP.is_finite qh = true ∧ height = (FP.trunc qh + 1)%Z) ∧
  (FP.bev_width (FP.extent_of (-80) 80 (-80) 80) (FP.f64 0.2) = Ok 800%Z ∧
   FP.bev_height (FP.extent_of (-80) 80 (-80) 80) (FP.f64 0.2) = Ok 800%Z) ∧
  (FP.bev_width (FP.extent_of 0 0.3 0 0.3) (FP.f64 0.1) = Ok 2%Z ∧
   FP.bev_height (FP.extent_of 0 0.3 0 0.3) (FP.f64 0.1) = Ok 2%Z ∧
   Qfloor ((0.3 - 0) / 0.1) = 3%Z).
Proof.
  intros qw qh. split_and!.
  - intros points reducer g Hg.
    destruct (FP.bev_width extent resolution) as [width|e] eqn:Hw;
      [|by unfold FP.rasterize_bev in Hg; rewrite Hw in Hg].
    destruct (FP.bev_height extent resolution) as [height|e] eqn:Hh;
      [|by unfold FP.rasterize_bev in Hg; rewrite Hw, Hh in Hg].
    exists width, height. split; [done|]. split; [done|].
    by eapply fp_rasterize_bev_shape.
  - intros width. apply fp_int_quotient.
  - intros height. apply fp_int_quotient.
  - apply fp_trunc_floor.
  - apply fp_trunc_floor.
  - intros Hres. split; intros Hd; by apply fp_div_nonneg.
  - intros width. apply fp_laz_size.
  - intros height. apply fp_laz_size.
  - by vm_compute.
  - by vm_compute.
  - by vm_compute.
  - by vm_compute.
  - by vm_compute.
Qed.

(** Against the claim: the floor of the exact quotient is not what the
    code computes, and convert_laz_to_png.py does not compute the same
    dimensions as [rasterize_bev]. *)
Lemma grid_dimensions_differ :
  FP.bev_width (FP.extent_of 0 0.3 0 0.3) (FP.f64 0.1) = Ok 2%Z ∧
  Qfloor ((0.3 - 0) / 0.1) = 3%Z ∧
  FP.bev_width (FP.extent_of (-80) 80 (-80) 80) (FP.f64 0.2) = Ok 800%Z ∧
  FP.laz_width (FP.extent_of (-80) 80 (-80) 80) (FP.f64 0.2) = Ok 801%Z.
Proof. by vm_compute. Qed.

(** ** The mean reducer *)

Lemma fp_length_cell_intensities extent resolution width height points r c :
  length (FP.cell_intensities extent resolution width height points r c)
  ≤ length points.
Proof.
  unfold FP.cell_intensities, FP.cell_values, FP.valid_points.
  rewrite length_map. etrans; [apply length_filter|].
  rewrite length_map. apply length_filter.
Qed.

(** C5.  With the mean reducer, on a grid with at least one cell and a
    frame of fewer than 2^31 points, the loop leaves in [intensity_grid]
    the float32 sum, taken in input order, and in [count_grid] the number
    of the in-extent points mapped to each cell; the returned grid holds
    the sum divided by the count where the count is positive and 0 where
    it is 0.  Three points in one cell with intensities 10, 200 and 50 give
    the float32 number 86.66666412353516, within 1 of 86.667. *)
Theorem mean_reducer (extent : FP.Extent) (resolution : FP.float)
    (width height : Z) (points : list FP.Point) :
  FP.bev_width extent resolution = Ok width →
  FP.bev_height extent resolution = Ok height →
  (1 ≤ height)%Z →
  (1 ≤ width)%Z →
  (Z.of_nat (length points) < 2 ^ 31)%Z →
  (∃ sums counts g,
     for_each FP.mean_step
       (map (FP.to_pixel extent resolution width height)
            (FP.valid_points extent points))
       (zeros FP.zero height width, zeros 0%Z height width)
     = Ok (sums, counts) ∧
     FP.rasterize_bev points extent resolution RMean = Ok g ∧
     has_shape g (Z.to_nat height) (Z.to_nat width) ∧
     ∀ r c,
       r < Z.to_nat height →
       c < Z.to_nat width →
       let values :=
         FP.cell_intensities extent resolution width height points r c in
       let total := fold_left FP.f32_add values FP.zero in
       let count := Z.of_nat (length values) in
       cell sums r c = Some total ∧
       cell counts r c = Some count ∧
       cell g r c
       = Some (if decide (count = 0%Z) then FP.zero
               else FP.divide total count)) ∧
  (∃ g,
     FP.rasterize_bev [FP.pt 0.5 0.5 10; FP.pt 0.6 0.7 200; FP.pt 0.1 0.2 50]
                      (FP.extent_of 0 2 0 2) (FP.f64 1) RMean = Ok g ∧
     cell g 0 0 = Some (S754_finite false 11359573 (-17)) ∧
     (FP.value (S754_finite false 11359573 (-17)) == 11359573 # 131072)%Q ∧
     (86.667 - 1 <= 11359573 # 131072)%Q ∧
     (11359573 # 131072 <= 86.667 + 1)%Q).
Proof.
  intros Hwidth Hheight Hh Hw Hlen. split.
  - eexists _, _, _. split_and!.
    + unfold FP.mean_step. rewrite !zeros_tabulate.
      apply fp_accumulate_loop. by apply fp_valid_pixels_in_grid.
    + by apply fp_rasterize_bev_mean.
    + apply tabulate_shape.
    + intros r c Hr Hc.
      pose proof (fp_length_cell_intensities extent resolution width height
                    points r c) as Hle.
      rewrite !cell_tabulate by done.
      fold (FP.cell_intensities extent resolution width height points r c).
      cbv zeta. rewrite fold_count_0, wrap32_small by lia.
      split_and!; try done. f_equal.
      destruct (FP.cell_intensities _ _ _ _ _ _ _) as [|v values]; [done|].
      rewrite decide_False by (simpl; lia).
      destruct (Z.ltb_spec 0 (Z.of_nat (length (v :: values))));
        [done|simpl in *; lia].
  - eexists. split; [by vm_compute|]. split_and!; by vm_compute.
Qed.

Lemma mean_reducer_witness :
  ∃ g,
    FP.rasterize_bev [FP.pt 0.5 0.5 10; FP.pt 1.5 0.5 4]
                     (FP.extent_of 0 2 0 2) (FP.f64 1) RMean = Ok g.
Proof.
  destruct (mean_reducer (FP.extent_of 0 2 0 2) (FP.f64 1) 2 2
              [FP.pt 0.5 0.5 10; FP.pt 1.5 0.5 4])
    as ((sums & counts & g & _ & Hg & _) & _); [by vm_compute..|].
  exists g. exact Hg.
Defined.

(** The float32 sum is not the exact sum: seven points of intensity
    float32(0.1) in one cell give a mean above float32(0.1), and once the
    sum has reached 2^24 adding 1 leaves it unchanged. *)
Lemma mean_reducer_rounds :
  (∃ g,
     FP.rasterize_bev (replicate 7 (FP.pt 0.5 0.5 0.1))
                      (FP.extent_of 0 2 0 2) (FP.f64 1) RMean = Ok g ∧
     cell g 0 0 = Some (S754_finite false 13421774 (-27)) ∧
     FP.f32 0.1 = S754_finite false 13421773 (-27)) ∧
  FP.f32_add (FP.f32 16777216) (FP.f32 1) = FP.f32 16777216.
Proof. split; [eexists; split_and!|]; by vm_compute. Qed.

(** ** Minmax normalization *)

Lemma fp_np_min_nonempty (l : list FP.float) :
  l ≠ [] → ∃ lo, FP.np_min l = Ok lo.
Proof. destruct l; [done|]. by eexists. Qed.

Lemma fp_np_max_nonempty (l : list FP.float) :
  l ≠ [] → ∃ hi, FP.np_max l = Ok hi.
Proof. destruct l; [done|]. by eexists. Qed.

Lemma fp_fold_constant (f : FP.float → FP.float → FP.float) (c : FP.float)
    (l : list FP.float) :
  f c c = c → Forall (λ v, v = c) l → fold_left f l c = c.
Proof.
  intros Hf. induction 1 as [|v l -> _ IH]; [done|]. simpl. by rewrite Hf.
Qed.

(** A fold over a list of two values, one of which absorbs the other. *)
Lemma fp_fold_absorbing (f : FP.float → FP.float → FP.float)
    (a b : FP.float) (l : list FP.float) (x : FP.float) :
  f a a = a → f a b = a → f b a = a → f b b = b →
  Forall (λ v, v = a ∨ v = b) (x :: l) → a ∈ x :: l →
  fold_left f l x = a.
Proof.
  intros Haa Hab Hba Hbb. revert x.
  induction l as [|v l IH]; intros x Hall Hin.
  - by apply list_elem_of_singleton in Hin.
  - apply Forall_cons in Hall as [Hx Hall].
    pose proof Hall as [Hv Hl]%Forall_cons. simpl.
    assert (∀ y, f x v = y → y = a ∨ y = b) as Hcases.
    { intros y <-. destruct Hx as [-> | ->], Hv as [-> | ->];
        rewrite ?Haa, ?Hab, ?Hba, ?Hbb; auto. }
    apply IH.
    + apply Forall_cons. split; [by apply Hcases|done].
    + destruct Hx as [-> | ->].
      * destruct Hv as [-> | ->]; rewrite ?Haa, ?Hab; by left.
      * destruct Hv as [-> | ->]; rewrite ?Hba, ?Hbb; [by left|].
        apply elem_of_cons in Hin as [->|Hin]; [by left|].
        apply elem_of_cons in Hin as [->|Hin]; [by left|]. by right.
Qed.

(** C6 (amended).  On a grid with at least one cell, minmax normalization
    takes [lo = min(grid)] and [hi = max(grid)] and returns, when
    [hi > lo], the integer part of [(v - lo) / (hi - lo) * 255] computed in
    float32 for every cell [v], and the all-zero image otherwise, so for
    every constant grid; the image has the shape of the grid.  A grid of
    cells 0 and 100 maps the cells 100 to 255 and the others to 0.  The
    cast truncates where the claim rounds: the grid (0, 2, 7) gives 72 for
    its middle cell.  The scaling is rounded to float32 before the cast:
    the grid (0, 133349, 133874) gives 254 for its middle cell, where the
    floor of the exact value is 253.  A grid without cells is a
    [ValueError]. *)
Theorem minmax_normalization (g : FP.Grid) :
  concat g ≠ [] →
  ∃ lo hi image,
    FP.np_min (concat g) = Ok lo ∧
    FP.np_max (concat g) = Ok hi ∧
    FP.normalize_intensity_minmax g = Ok image ∧
    (∀ h w, has_shape g h w → has_shape image h w) ∧
    (∀ r c v,
        cell g r c = Some v →
        cell image r c
        = Some (if SFltb lo hi then FP.astype_uint8 (FP.scale lo hi v)
                else 0%Z)) ∧
    (∀ k, Forall (λ v, v = k) (concat g) →
          ∀ r c z, cell image r c = Some z → z = 0%Z) ∧
    (Forall (λ v, v = FP.zero ∨ v = FP.f32 100) (concat g) →
     FP.zero ∈ concat g → FP.f32 100 ∈ concat g →
     ∀ r c v,
       cell g r c = Some v →
       (v = FP.f32 100 → cell image r c = Some 255%Z) ∧
       (v = FP.zero → cell image r c = Some 0%Z)) ∧
    FP.normalize_intensity_minmax (FP.grid_of [[0; 2; 7]]%Q)
    = Ok [[0; 72; 255]]%Z ∧
    (FP.normalize_intensity_minmax (FP.grid_of [[0; 133349; 133874]]%Q)
     = Ok [[0; 254; 255]]%Z ∧
     Qfloor ((133349 - 0) / (133874 - 0) * 255) = 253%Z) ∧
    FP.normalize_intensity_minmax [] = Raise ValueError.
Proof.
  intros Hne.
  destruct (fp_np_min_nonempty _ Hne) as [lo Hlo].
  destruct (fp_np_max_nonempty _ Hne) as [hi Hhi].
  assert (FP.normalize_intensity_minmax g
          = Ok (map (map (λ v, if SFltb lo hi
                               then FP.astype_uint8 (FP.scale lo hi v)
                               else 0%Z)) g)) as Himage.
  { unfold FP.normalize_intensity_minmax. rewrite Hlo, Hhi, !bind_Ok.
    f_equal. unfold FP.to_uint8, np_zeros_like.
    destruct (SFltb lo hi); rewrite map_map; apply map_ext; intros row;
      by rewrite map_map. }
  assert (∀ r c v,
            cell g r c = Some v →
            cell (map (map (λ v, if SFltb lo hi
                                 then FP.astype_uint8 (FP.scale lo hi v)
                                 else 0%Z)) g) r c
            = Some (if SFltb lo hi then FP.astype_uint8 (FP.scale lo hi v)
                    else 0%Z)) as Hcells.
  { intros r c v Hv. by rewrite cell_map, Hv. }
  eexists lo, hi, _. split_and!.
  - done.
  - done.
  - exact Himage.
  - intros h w Hshape. by apply has_shape_map.
  - exact Hcells.
  - intros k Hall r c z.
    destruct (concat g) as [|x l] eqn:Hcat; [done|].
    apply Forall_cons in Hall as [-> Hall].
    assert (lo = k) as ->.
    { injection Hlo as <-. apply fp_fold_constant; [|done].
      unfold FP.minimum. by destruct (_ || _). }
    assert (hi = k) as ->.
    { injection Hhi as <-. apply fp_fold_constant; [|done].
      unfold FP.maximum. by destruct (_ || _). }
    rewrite cell_map, fp_ltb_irrefl.
    destruct (cell g r c); [|done]. by intros [= <-].
  - intros Hall H0 H100 r c v Hv.
    destruct (concat g) as [|x l] eqn:Hcat; [done|].
    assert (lo = FP.zero) as ->.
    { injection Hlo as <-.
      by apply (fp_fold_absorbing FP.minimum FP.zero (FP.f32 100)). }
    assert (hi = FP.f32 100) as ->.
    { injection Hhi as <-.
      apply (fp_fold_absorbing FP.maximum (FP.f32 100) FP.zero);
        try done.
      eapply Forall_impl; [exact Hall|]. intros y [?|?]; auto. }
    rewrite (Hcells r c v Hv). split; by intros ->.
  - by vm_compute.
  - by vm_compute.
  - by vm_compute.
  - by vm_compute.
Qed.

Lemma minmax_normalization_witness :
  ∃ image,
    FP.normalize_intensity_minmax (FP.grid_of [[0; 100]; [0; 0]]%Q)
    = Ok image.
Proof.
  destruct (minmax_normalization (FP.grid_of [[0; 100]; [0; 0]]%Q))
    as (lo & hi & image & _ & _ & Himage & _); [done|].
  by exists image.
Defined.

(** Against the claim: the middle cell of the grid (0, 2, 7) is scaled to
    72.857 and becomes 72, not the rounded 73. *)
Lemma minmax_normalization_truncates :
  FP.normalize_intensity_minmax (FP.grid_of [[0; 2; 7]]%Q)
  = Ok [[0; 72; 255]]%Z ∧
  Qfloor ((2 - 0) / (7 - 0) * 255 + 1 / 2) = 73%Z.
Proof. by vm_compute. Qed.

(** ** The rows and columns of the two rasterizers *)

(** C9 (amended).  The two rasterizers do not use one convention.  For a
    finite non-zero resolution, tools/make_bev_intensity.py puts a point
    with [y = ymin] in row 0 and convert_laz_to_png.py, which flips the
    axis, puts a point with [y = ymax] in row 0 and a point with
    [y = ymin] in its last row; both put a point with [x = xmin] in
    column 0.  With extent (0, 1, 0, 1) and resolution 0.5 the point
    (0.1, 0.1) is in row 0 for the one and in row 1 for the other.  The
    columns differ too: with resolution 0.3 the point (0.95, 0.95) is in
    column 2 for the one, which clamps, and in column 3 for the other; and
    with extent (-1, 1, -1, 1) and resolution 1 the point of [x = -2^-26]
    is in column 1 for the one, which computes in float32, and in column 0
    for the other, which computes in float64. *)
Theorem pixel_conventions (extent : FP.Extent) (resolution : FP.float)
    (width height : Z) :
  (1 ≤ width)%Z →
  (1 ≤ height)%Z →
  FP.is_zero resolution = false →
  FP.is_nan resolution = false →
  FP.is_zero (FP.f32_of_f64 resolution) = false →
  FP.is_nan (FP.f32_of_f64 resolution) = false →
  (∀ p, FP.is_finite (FP.pt_y p) = true →
        FP.pt_y p = FP.f32_of_f64 (FP.ymin extent) →
        FP.pixel_y extent resolution height p = 0%Z) ∧
  (∀ p, FP.is_finite (FP.pt_y p) = true →
        FP.pt_y p = FP.ymax extent →
        FP.laz_py extent resolution p = 0%Z) ∧
  (∀ p, FP.is_finite (FP.pt_x p) = true →
        FP.pt_x p = FP.f32_of_f64 (FP.xmin extent) →
        FP.pixel_x extent resolution width p = 0%Z) ∧
  (∀ p, FP.is_finite (FP.pt_x p) = true →
        FP.pt_x p = FP.xmin extent →
        FP.laz_px extent resolution p = 0%Z) ∧
  (∀ p rows,
      FP.pt_y p = FP.ymin extent →
      FP.laz_height extent resolution = Ok rows →
      (- 2 ^ 63 < rows ≤ 2 ^ 63)%Z →
      FP.laz_py extent resolution p = (rows - 1)%Z) ∧
  (FP.pixel_y (FP.extent_of 0 1 0 1) (FP.f64 0.5) 2 (FP.pt 0.1 0.1 5) = 0%Z ∧
   FP.laz_py (FP.extent_of 0 1 0 1) (FP.f64 0.5)
             (FP.as_float64 (FP.pt 0.1 0.1 5)) = 1%Z) ∧
  (FP.pixel_x (FP.extent_of 0 1 0 1) (FP.f64 0.3) 3 (FP.pt 0.95 0.95 5)
   = 2%Z ∧
   FP.laz_px (FP.extent_of 0 1 0 1) (FP.f64 0.3)
             (FP.as_float64 (FP.pt 0.95 0.95 5)) = 3%Z) ∧
  (FP.pixel_x (FP.extent_of (-1) 1 (-1) 1) (FP.f64 1) 2
              (FP.pt (- (1 # 67108864)) 0 5) = 1%Z ∧
   FP.laz_px (FP.extent_of (-1) 1 (-1) 1) (FP.f64 1)
             (FP.as_float64 (FP.pt (- (1 # 67108864)) 0 5)) = 0%Z).
Proof.
  intros Hw Hh Hnz Hnan Hnz32 Hnan32.
  assert (∀ prec emax v r,
            FP.is_finite v = true → FP.is_zero r = false →
            FP.is_nan r = false →
            FP.is_zero (SFdiv prec emax (SFsub prec emax v v) r) = true)
    as Hzero.
  { intros prec emax v r Hv Hr0 Hrn. rewrite fp_sub_diag by done.
    by apply fp_div_zero. }
  split_and!.
  - intros p Hfin Hy. unfold FP.pixel_y, FP.raw_pixel_y, FP.astype_int32.
    rewrite <- Hy, fp_astype_int_zero by (done || by apply Hzero).
    unfold np_clip. lia.
  - intros p Hfin Hy. unfold FP.laz_py, FP.astype_int64.
    rewrite <- Hy. apply fp_astype_int_zero; [done|by apply Hzero].
  - intros p Hfin Hx. unfold FP.pixel_x, FP.raw_pixel_x, FP.astype_int32.
    rewrite <- Hx, fp_astype_int_zero by (done || by apply Hzero).
    unfold np_clip. lia.
  - intros p Hfin Hx. unfold FP.laz_px, FP.astype_int64.
    rewrite <- Hx. apply fp_astype_int_zero; [done|by apply Hzero].
  - intros p rows Hy Hrows Hrange. unfold FP.laz_py, FP.astype_int64.
    rewrite Hy. apply fp_laz_size in Hrows as [Hfin ->].
    rewrite fp_astype_int_trunc by (done || (simpl; lia)). lia.
  - by vm_compute.
  - by vm_compute.
  - by vm_compute.
  - by vm_compute.
  - by vm_compute.
  - by vm_compute.
Qed.

Lemma pixel_conventions_witness :
  FP.pixel_y (FP.extent_of 0 1 0 1) (FP.f64 0.5) 2 (FP.pt 0.5 0 5) = 0%Z.
Proof.
  apply (pixel_conventions (FP.extent_of 0 1 0 1) (FP.f64 0.5) 2 2);
    by vm_compute.
Defined.

(** Against the claim: on the same extent and resolution the two
    rasterizers put the same point in different rows and, where the one
    clamps or where float32 rounds, in different columns. *)
Lemma pixel_conventions_rows_differ :
  (FP.pixel_y (FP.extent_of 0 1 0 1) (FP.f64 0.5) 2 (FP.pt 0.1 0.1 5) = 0%Z ∧
   FP.laz_py (FP.extent_of 0 1 0 1) (FP.f64 0.5)
             (FP.as_float64 (FP.pt 0.1 0.1 5)) = 1%Z) ∧
  (FP.pixel_x (FP.extent_of 0 1 0 1) (FP.f64 0.3) 3 (FP.pt 0.95 0.95 5)
   = 2%Z ∧
   FP.laz_px (FP.extent_of 0 1 0 1) (FP.f64 0.3)
             (FP.as_float64 (FP.pt 0.95 0.95 5)) = 3%Z) ∧
  (FP.pixel_x (FP.extent_of (-1) 1 (-1) 1) (FP.f64 1) 2
              (FP.pt (- (1 # 67108864)) 0 5) = 1%Z ∧
   FP.laz_px (FP.extent_of (-1) 1 (-1) 1) (FP.f64 1)
             (FP.as_float64 (FP.pt (- (1 # 67108864)) 0 5)) = 0%Z).
Proof. by vm_compute. Qed.

(** * Further properties of the code *)

(** ** The max reducer and the max composite *)

Lemma fold_py_max_init (l : list Qc) (a b : Qc) :
  fold_left py_max l (py_max a b) = py_max a (fold_left py_max l b).
Proof.
  revert b. induction l as [|x l IH]; intros b; simpl; [done|].
  by rewrite <- py_max_assoc, IH.
Qed.

Lemma fold_py_max_nonneg (l : list Qc) : (0 ≤ fold_left py_max l 0)%Qc.
Proof.
  destruct (fold_py_max_is_maximum l 0%Qc) as [_ H]. apply H. by left.
Qed.

Lemma py_max_nonneg_0 (m : Qc) : (0 ≤ m)%Qc → py_max m 0 = m.
Proof. intros H. unfold py_max. by rewrite (proj2 (Qcltb_ge m 0) H). Qed.

Lemma fold_py_max_app (l1 l2 : list Qc) :
  fold_left py_max (l1 ++ l2) 0%Qc
  = py_max (fold_left py_max l1 0%Qc) (fold_left py_max l2 0%Qc).
Proof.
  rewrite fold_left_app.
  rewrite <- (py_max_nonneg_0 (fold_left py_max l1 0%Qc)) at 1
    by apply fold_py_max_nonneg.
  apply fold_py_max_init.
Qed.

Lemma cell_intensities_app extent resolution points1 points2 r c :
  cell_intensities extent resolution (points1 ++ points2) r c
  = cell_intensities extent resolution points1 r c
    ++ cell_intensities extent resolution points2 r c.
Proof.
  rewrite !cell_intensities_points. unfold points_in_cell.
  by rewrite filter_app, fmap_app.
Qed.

Lemma max_grid_app extent resolution points1 points2 :
  max_grid extent resolution (points1 ++ points2)
  = np_maximum (max_grid extent resolution points1)
               (max_grid extent resolution points2).
Proof.
  unfold max_grid, np_maximum. rewrite zip_with_tabulate.
  apply tabulate_ext. intros r c _ _.
  by rewrite cell_intensities_app, fold_py_max_app.
Qed.

Lemma max_grid_nil extent resolution points :
  max_grid extent resolution ([] ++ points)
  = max_grid extent resolution points.
Proof. done. Qed.

Lemma frame_grids_max extent resolution frames :
  (1 ≤ bev_height extent resolution)%Z →
  (1 ≤ bev_width extent resolution)%Z →
  frame_grids frames extent resolution RMax
  = map (max_grid extent resolution) (filter (λ f, f ≠ []) frames).
Proof.
  intros Hh Hw. pose proof (bev_width_resolution _ _ Hw) as Hres.
  unfold frame_grids. induction frames as [|f frames IH]; [done|].
  change (omap ?k (f :: frames))
    with (match k f with
          | Some g => g :: omap k frames
          | None => omap k frames
          end).
  rewrite filter_cons. destruct f as [|p f].
  - rewrite decide_False by (by intros H). apply IH.
  - rewrite decide_True by done. unfold frame_grid at 1.
    rewrite rasterize_bev_max by done. rewrite fmap_cons. f_equal. apply IH.
Qed.

Lemma fold_max_grid extent resolution (frames : list (list Point)) points :
  fold_left np_maximum (map (max_grid extent resolution) frames)
            (max_grid extent resolution points)
  = max_grid extent resolution (points ++ concat frames).
Proof.
  revert points. induction frames as [|f frames IH]; intros points; simpl.
  - by rewrite app_nil_r.
  - rewrite <- max_grid_app, IH. by rewrite <- app_assoc.
Qed.

Lemma concat_nonempty {A : Type} (frames : list (list A)) :
  concat (filter (λ f, f ≠ []) frames) = concat frames.
Proof.
  induction frames as [|f frames IH]; [done|].
  rewrite filter_cons. destruct f as [|x f].
  - rewrite decide_False by (by intros H). apply IH.
  - rewrite decide_True by done. simpl. by rewrite IH.
Qed.

Lemma main_composite_max_grid extent resolution frames :
  (1 ≤ bev_height extent resolution)%Z →
  (1 ≤ bev_width extent resolution)%Z →
  concat frames ≠ [] →
  main_composite frames extent resolution RMax
  = Some (max_grid extent resolution (concat frames)).
Proof.
  intros Hh Hw Hne.
  rewrite main_composite_frame_grids, frame_grids_max by done.
  rewrite <- (concat_nonempty frames) in *.
  destruct (filter _ frames) as [|f fs]; [done|].
  rewrite fmap_cons, composite_of_cons. f_equal. simpl.
  apply fold_max_grid.
Qed.

Lemma main_composite_no_points extent resolution frames :
  (1 ≤ bev_height extent resolution)%Z →
  (1 ≤ bev_width extent resolution)%Z →
  concat frames = [] →
  main_composite frames extent resolution RMax = None.
Proof.
  intros Hh Hw Hnil.
  rewrite main_composite_frame_grids, frame_grids_max by done.
  assert (filter (λ f : list Point, f ≠ []) frames = []) as ->; [|done].
  induction frames as [|f frames IH]; [done|].
  simpl in Hnil. apply app_eq_nil in Hnil as [-> Hnil].
  rewrite filter_cons, decide_False by (by intros H). by apply IH.
Qed.

(** X2.  On a grid with at least one cell the max reducer is a homomorphism
    from concatenation of frames to [np.maximum]: rasterizing two frames
    together gives the elementwise maximum of their grids.  Hence the max
    composite that [main] accumulates over a run equals the grid of all the
    points of the run rasterized as one frame; a run whose frames are all
    empty has no composite. *)
Theorem max_composite_of_points (extent : Extent) (resolution : Qc) :
  (1 ≤ bev_height extent resolution)%Z →
  (1 ≤ bev_width extent resolution)%Z →
  (∀ points1 points2,
      ∃ g1 g2,
        rasterize_bev points1 extent resolution RMax = Ok g1 ∧
        rasterize_bev points2 extent resolution RMax = Ok g2 ∧
        rasterize_bev (points1 ++ points2) extent resolution RMax
        = Ok (np_maximum g1 g2)) ∧
  (∀ frames,
      concat frames ≠ [] →
      ∃ g,
        rasterize_bev (concat frames) extent resolution RMax = Ok g ∧
        main_composite frames extent resolution RMax = Some g) ∧
  (∀ frames,
      concat frames = [] →
      main_composite frames extent resolution RMax = None).
Proof.
  intros Hh Hw. pose proof (bev_width_resolution _ _ Hw) as Hres.
  split_and!.
  - intros points1 points2. eexists _, _.
    rewrite !rasterize_bev_max by done. split_and!; [done..|].
    f_equal. apply max_grid_app.
  - intros frames Hne. eexists. split; [by apply rasterize_bev_max|].
    by apply main_composite_max_grid.
  - intros frames Hnil. by apply main_composite_no_points.
Qed.

Lemma max_composite_of_points_witness :
  ∃ g,
    rasterize_bev (concat [[pt 0.5 0.5 10]; []; [pt 0.6 0.7 200]])
                  (extent_of 0 2 0 2) (qc 1) RMax = Ok g ∧
    main_composite [[pt 0.5 0.5 10]; []; [pt 0.6 0.7 200]]
                   (extent_of 0 2 0 2) (qc 1) RMax = Some g.
Proof.
  destruct (max_composite_of_points (extent_of 0 2 0 2) (qc 1))
    as (_ & H & _); [by vm_compute..|].
  apply H. discriminate.
Defined.

(** ** The frame loop of [main] *)

Lemma set_frame_count_id (st : LoopState) :
  set_frame_count st (frame_count st) = st.
Proof. by destruct st. Qed.

Lemma frame_count_try_frame args st data :
  frame_count (try_frame args st data) = (frame_count st + 1)%Z.
Proof. unfold try_frame. by repeat case_match. Qed.

Lemma frame_count_fold args (l : list (result (list Point))) :
  ∀ st,
    frame_count (fold_left (try_frame args) l st)
    = (frame_count st + Z.of_nat (length l))%Z.
Proof.
  induction l as [|d l IH]; intros st; simpl; [lia|].
  rewrite IH, frame_count_try_frame. lia.
Qed.

(** The loop from any state: skip up to the start frame, then run the
    [try] block on the records up to the end frame. *)
Lemma frame_loop_from args s e (dataset : list (result (list Point))) :
  ∀ st,
    frame_loop args s e dataset st
    = fold_left (try_frame args)
        (take (match e with
               | Some e0 =>
                   Z.to_nat (e0 + 1 - frame_count st)
                   - match s with
                     | Some s0 => Z.to_nat (s0 - frame_count st)
                     | None => 0
                     end
               | None => length dataset
               end)
           (drop (match s with
                  | Some s0 => Z.to_nat (s0 - frame_count st)
                  | None => 0
                  end) dataset))
        (set_frame_count st
           (frame_count st
            + Z.of_nat (min (match s with
                             | Some s0 => Z.to_nat (s0 - frame_count st)
                             | None => 0
                             end) (length dataset)))).
Proof.
  induction dataset as [|d rest IH]; intros st.
  - simpl. rewrite drop_nil, take_nil. simpl.
    rewrite Nat.min_0_r, Z.add_0_r. by rewrite set_frame_count_id.
  - cbn [frame_loop].
    destruct (before_start s st) eqn:Hb.
    + destruct s as [s0|]; [|done]. simpl in Hb. apply Z.ltb_lt in Hb.
      rewrite IH. cbn [frame_count next_frame].
      replace (Z.to_nat (s0 - frame_count st))
        with (S (Z.to_nat (s0 - (frame_count st + 1)))) by lia.
      cbn [drop length]. unfold set_frame_count. cbn [next_frame
        processed_count composite_grid files].
      f_equal; [|f_equal; lia].
      destruct e as [e0|].
      * f_equal. lia.
      * rewrite !take_ge; [done|rewrite length_drop; lia..].
    + assert (match s with
              | Some s0 => Z.to_nat (s0 - frame_count st)
              | None => 0
              end = 0) as Ha.
      { destruct s as [s0|]; [|done]. simpl in Hb.
        apply Z.ltb_ge in Hb. lia. }
      rewrite Ha. rewrite Nat.min_0_l, Z.add_0_r, set_frame_count_id.
      cbn [drop]. rewrite ?Nat.sub_0_r.
      destruct (after_end e st) eqn:He.
      * destruct e as [e0|]; [|done]. simpl in He. apply Z.ltb_lt in He.
        by replace (Z.to_nat (e0 + 1 - frame_count st)) with 0 by lia.
      * rewrite IH, frame_count_try_frame.
        assert (match s with
                | Some s0 => Z.to_nat (s0 - (frame_count st + 1))
                | None => 0
                end = 0) as Ha'.
        { destruct s as [s0|]; [|done]. simpl in Hb.
          apply Z.ltb_ge in Hb. lia. }
        rewrite Ha'. rewrite Nat.min_0_l, Z.add_0_r. cbn [drop].
        rewrite ?Nat.sub_0_r.
        rewrite <- (frame_count_try_frame args st d), set_frame_count_id.
        destruct e as [e0|].
        -- simpl in He. apply Z.ltb_ge in He.
           rewrite frame_count_try_frame.
           replace (Z.to_nat (e0 + 1 - frame_count st))
             with (S (Z.to_nat (e0 + 1 - (frame_count st + 1)))) by lia.
           by rewrite !Nat.sub_0_r.
        -- cbn [length]. done.
Qed.

Lemma try_frame_files args st data :
  ∃ new,
    files (try_frame args st data) = files st ++ new ∧
    Forall (λ f, file_name f = Some (FrameName (frame_count st))) new ∧
    (args_composite args = true → new = []) ∧
    (args_composite args = false → args_res args ≠ 0%Qc →
     Z.of_nat (length new)
     = (2 * (processed_count (try_frame args st data)
             - processed_count st))%Z).
Proof.
  unfold try_frame, save_png_with_metadata.
  destruct (Qceqb (args_res args) 0) eqn:Hres;
    [apply Qceqb_eq in Hres|];
    repeat case_match; simplify_eq; simpl;
    first [ exists []; rewrite app_nil_r; split_and!;
            [done|constructor|done|intros; simpl; first [congruence|lia]]
          | eexists [_]; split_and!;
            [done|by repeat constructor|intros; congruence|done]
          | eexists [_; _]; rewrite <- app_assoc; split_and!;
            [done|by repeat constructor|intros; congruence
            |intros; simpl; lia] ].
Qed.

Lemma try_frame_processed args st data :
  (processed_count st ≤ processed_count (try_frame args st data)
   ≤ processed_count st + 1)%Z.
Proof. unfold try_frame. repeat case_match; simpl; lia. Qed.

Lemma try_frame_composite args st data :
  composite_grid (try_frame args st data)
  = if args_composite args then
      match frame_grid (args_extent args) (args_res args) (args_reducer args)
              (match data with Ok points => points | Raise _ => [] end) with
      | Some g => composite_merge (args_reducer args) (composite_grid st) g
      | None => composite_grid st
      end
    else composite_grid st.
Proof.
  unfold try_frame, frame_grid.
  destruct data as [[|p points]|e]; simpl; [by destruct (args_composite _)| |
    by destruct (args_composite _)].
  destruct (rasterize_bev _ _ _ _); simpl; [|by destruct (args_composite _)].
  destruct (args_composite args); [done|].
  by repeat case_match.
Qed.

(** What a run of the [try] block over some records leaves behind. *)
Lemma fold_try_frame args (l : list (result (list Point))) :
  ∀ st,
    let st' := fold_left (try_frame args) l st in
    (∃ new,
       files st' = files st ++ new ∧
       Forall (λ f, ∃ i, file_name f = Some (FrameName i) ∧
                         (frame_count st ≤ i
                          < frame_count st + Z.of_nat (length l))%Z) new ∧
       (args_composite args = true → new = []) ∧
       (args_composite args = false → args_res args ≠ 0%Qc →
        Z.of_nat (length new)
        = (2 * (processed_count st' - processed_count st))%Z)) ∧
    (processed_count st ≤ processed_count st'
     ≤ processed_count st + Z.of_nat (length l))%Z ∧
    composite_grid st'
    = if args_composite args then
        fold_left (composite_merge (args_reducer args))
          (frame_grids (extracted l) (args_extent args) (args_res args)
                       (args_reducer args))
          (composite_grid st)
      else composite_grid st.
Proof.
  induction l as [|d l IH]; intros st.
  - simpl. split; [|split]; [|lia|by destruct (args_composite args)].
    exists []. rewrite app_nil_r. split_and!; [done|constructor|done|].
    intros. simpl. lia.
  - cbn [fold_left]. cbv zeta.
    destruct (IH (try_frame args st d)) as ((new & Hfiles & Hnames & Hc & Hn)
                                            & Hproc & Hcomp).
    destruct (try_frame_files args st d) as (new0 & Hfiles0 & Hnames0 & Hc0
                                             & Hn0).
    pose proof (try_frame_processed args st d) as Hproc0.
    rewrite frame_count_try_frame in Hnames.
    split; [|split].
    + exists (new0 ++ new). split_and!.
      * by rewrite Hfiles, Hfiles0, app_assoc.
      * apply Forall_app. split.
        -- eapply Forall_impl; [exact Hnames0|]. intros f Hf.
           exists (frame_count st). split; [done|]. cbn [length]. lia.
        -- eapply Forall_impl; [exact Hnames|]. intros f (i & Hf & Hi).
           exists i. split; [done|]. cbn [length]. lia.
      * intros Hcomposite. by rewrite Hc0, Hc.
      * intros Hcomposite Hres. rewrite length_app, Nat2Z.inj_add.
        rewrite Hn0, Hn by done. lia.
    + cbn [length]. lia.
    + rewrite Hcomp, try_frame_composite.
      destruct (args_composite args); [|done].
      unfold extracted, frame_grids.
      destruct d as [points|e]; cbn [omap list_omap].
      * by destruct (frame_grid _ _ _ points).
      * done.
Qed.

Lemma length_frame_slice {A : Type} s e (dataset : list A) :
  min (skipped s) (length dataset) + length (frame_slice s e dataset)
  ≤ length dataset ∧
  match e with
  | Some e0 =>
      length (frame_slice s e dataset) ≤ Z.to_nat (e0 + 1) - skipped s
  | None => True
  end.
Proof.
  unfold frame_slice. destruct e as [e0|].
  - rewrite length_take, length_drop. lia.
  - rewrite length_drop. lia.
Qed.

Lemma frame_loop_slice (args : Args) (start_frame end_frame : option Z)
    (dataset : list (result (list Point))) :
  frame_loop args start_frame end_frame dataset initial_state
  = fold_left (try_frame args) (frame_slice start_frame end_frame dataset)
      (set_frame_count initial_state
         (Z.of_nat (min (skipped start_frame) (length dataset)))).
Proof.
  rewrite frame_loop_from. cbn [frame_count initial_state].
  unfold frame_slice, skipped. rewrite Z.add_0_l. f_equal.
  - destruct end_frame as [e0|].
    + rewrite Z.sub_0_r. by destruct start_frame; rewrite ?Z.sub_0_r.
    + destruct start_frame as [s0|]; rewrite ?Z.sub_0_r;
        (rewrite take_ge; [done|rewrite length_drop; lia]).
  - by destruct start_frame; rewrite ?Z.sub_0_r.
Qed.

Lemma frame_loop_counts (args : Args) (start_frame end_frame : option Z)
    (dataset : list (result (list Point))) :
  frame_count (frame_loop args start_frame end_frame dataset initial_state)
  = Z.of_nat (min (skipped start_frame) (length dataset)
              + length (frame_slice start_frame end_frame dataset)) ∧
  (0 ≤ processed_count
         (frame_loop args start_frame end_frame dataset initial_state)
     ≤ Z.of_nat (length (frame_slice start_frame end_frame dataset)))%Z.
Proof.
  rewrite frame_loop_slice.
  set (st0 := set_frame_count initial_state
                (Z.of_nat (min (skipped start_frame) (length dataset)))).
  destruct (fold_try_frame args
              (frame_slice start_frame end_frame dataset) st0)
    as (_ & Hproc & _).
  assert (processed_count st0 = 0%Z) as Hp0 by done.
  split; [|lia].
  rewrite frame_count_fold. unfold st0. cbn [set_frame_count frame_count].
  lia.
Qed.

(** X4.  The frame loop of [main] runs its [try] block on exactly the
    records whose index lies in the frame range, start and end included, in
    order; the frames before the range are counted but not read, the frames
    after it are neither.  So [total_frames] counts the frames up to the
    end of the range, every image is named after an index of the range, and
    no more frames are processed than the range holds. *)
Theorem frame_loop_range (args : Args) (start_frame end_frame : option Z)
    (dataset : list (result (list Point))) :
  frame_loop args start_frame end_frame dataset initial_state
  = fold_left (try_frame args) (frame_slice start_frame end_frame dataset)
      (set_frame_count initial_state
         (Z.of_nat (min (skipped start_frame) (length dataset)))) ∧
  frame_count (frame_loop args start_frame end_frame dataset initial_state)
  = Z.of_nat (min (skipped start_frame) (length dataset)
              + length (frame_slice start_frame end_frame dataset)) ∧
  (0 ≤ processed_count
         (frame_loop args start_frame end_frame dataset initial_state)
     ≤ Z.of_nat (length (frame_slice start_frame end_frame dataset)))%Z ∧
  Forall (λ f, ∃ i, file_name f = Some (FrameName i) ∧
                    in_range start_frame end_frame i ∧
                    (0 ≤ i < Z.of_nat (length dataset))%Z)
         (files (frame_loop args start_frame end_frame dataset
                            initial_state)).
Proof.
  pose proof (frame_loop_slice args start_frame end_frame dataset) as Hloop.
  destruct (frame_loop_counts args start_frame end_frame dataset)
    as [Hcount Hproc].
  split; [done|]. split; [done|]. split; [done|].
  rewrite Hloop.
  set (st0 := set_frame_count initial_state
                (Z.of_nat (min (skipped start_frame) (length dataset)))).
  destruct (fold_try_frame args
              (frame_slice start_frame end_frame dataset) st0)
    as ((new & Hfiles & Hnames & _) & _ & _).
  pose proof (length_frame_slice start_frame end_frame dataset) as [Hlen He].
  rewrite Hfiles. unfold st0 at 1. cbn [set_frame_count files initial_state].
  rewrite app_nil_l. eapply Forall_impl; [exact Hnames|].
  intros f (i & Hf & Hi). exists i. split; [done|].
  unfold st0 in Hi. cbn [set_frame_count frame_count] in Hi.
  unfold in_range, skipped in *.
  destruct start_frame as [s0|], end_frame as [e0|]; lia.
Qed.


(** ** Records that cannot be read *)















(** ** Rasterization followed by normalization *)













(** ** The composite of a run with the max reducer and percentile
    normalization *)



(** ** The raster of convert_laz_to_png.py *)











(** ** The [--frames] argument *)

Lemma string_length_app (a b : string) :
  String.length (a +:+ b) = String.length a + String.length b.
Proof. induction a as [|c a IH]; simpl; [done|by rewrite IH]. Qed.

Lemma string_app_cons (c : Ascii.ascii) (a r : string) :
  String c a +:+ r = String c (a +:+ r).
Proof. done. Qed.

Lemma string_app_assoc (a b c : string) :
  (a +:+ b) +:+ c = a +:+ (b +:+ c).
Proof.
  induction a as [|x a IH]; [done|]. by rewrite !string_app_cons, IH.
Qed.

Lemma substring_all (s : string) : String.substring 0 (String.length s) s = s.
Proof. induction s as [|c s IH]; simpl; [done|by rewrite IH]. Qed.

Lemma substring_prefix (a r : string) :
  String.substring 0 (String.length a) (a +:+ r) = a.
Proof.
  induction a as [|c a IH]; simpl; [by destruct r|]. by rewrite IH.
Qed.

Lemma substring_suffix (a r : string) :
  String.substring (String.length a) (String.length r) (a +:+ r) = r.
Proof.
  induction a as [|c a IH]; simpl; [apply substring_all|done].
Qed.

Lemma index_dot_cons (c : Ascii.ascii) (a : string) :
  String.index 0 "." (String c a) = None →
  String c "" ≠ "."%string ∧ String.index 0 "." a = None.
Proof.
  cbn [String.index String.prefix].
  match goal with
  | |- context [Ascii.ascii_dec ?d c] =>
      destruct (Ascii.ascii_dec d c) as [<-|Hc]
  end.
  - by destruct a.
  - intros H. split; [congruence|]. by destruct (String.index 0 "." a).
Qed.

(** The first [".."] of [a..b] follows [a] when [a] has no dot. *)
Lemma index_dots (a b : string) :
  String.index 0 "." a = None →
  String.index 0 ".." (a +:+ ".." +:+ b) = Some (String.length a).
Proof.
  induction a as [|c a IH]; intros Hdot; [by destruct b|].
  apply index_dot_cons in Hdot as [Hc Hdot].
  change (String c a +:+ ".." +:+ b) with (String c (a +:+ ".." +:+ b)).
  cbn [String.index String.length String.prefix].
  match goal with
  | |- context [Ascii.ascii_dec ?d c] =>
      destruct (Ascii.ascii_dec d c) as [<-|_]; [done|]
  end.
  by rewrite (IH Hdot).
Qed.

Lemma split_first_dots (a b : string) :
  String.index 0 "." a = None →
  split_first ".." (a +:+ ".." +:+ b) = Some (a, b).
Proof.
  intros Hdot. unfold split_first. rewrite (index_dots a b Hdot).
  cbn [mbind option_bind]. f_equal. f_equal.
  - apply substring_prefix.
  - rewrite string_length_app.
    change (String.length (".." +:+ b)) with (2 + String.length b).
    replace (String.length a + (2 + String.length b)
             - (String.length a + String.length ".."))
      with (String.length b) by (simpl; lia).
    rewrite <- (string_app_assoc a ".." b).
    replace (String.length a + String.length "..")
      with (String.length (a +:+ ".."))
      by (by rewrite string_length_app).
    apply substring_suffix.
Qed.

Lemma parse_frame_range_dots (int : string → result Z) (a b : string) :
  String.index 0 "." a = None →
  parse_frame_range int (a +:+ ".." +:+ b)
  = (start_frame ← (if decide (a = ""%string) then Ok 0%Z else int a);
     end_frame ← (if decide (b = ""%string) then Ok None
                  else n ← int b; Ok (Some n));
     Ok (Some start_frame, end_frame)).
Proof.
  intros Hdot. unfold parse_frame_range.
  rewrite decide_False.
  - by rewrite split_first_dots.
  - intros Heq. pose proof (index_dots a b Hdot) as Hi.
    rewrite Heq in Hi. discriminate Hi.
Qed.

(** X16.  A [--frames] argument [a..b] whose part [a] has no dot is split at
    its first [..]: the start frame is [int(a)], or 0 when [a] is empty, and
    the end frame is [int(b)], or open when [b] is empty; [main] then runs
    over that range, ends included on both sides, and an [a] that [int]
    refuses ends [main] with the exception of [int] before any file is
    written. *)
Theorem frames_argument (int : string → result Z) (args : Args)
    (a b : string) (dataset : list (result (list Point))) :
  String.index 0 "." a = None →
  let frames := (a +:+ ".." +:+ b)%string in
  parse_frame_range int frames
  = (start_frame ← (if decide (a = ""%string) then Ok 0%Z else int a);
     end_frame ← (if decide (b = ""%string) then Ok None
                  else n ← int b; Ok (Some n));
     Ok (Some start_frame, end_frame)) ∧
  (∀ s e, a ≠ ""%string → b ≠ ""%string → int a = Ok s → int b = Ok e →
     main int args frames dataset
     = main_run args (Some s) (Some e) dataset) ∧
  (∀ e, a = ""%string → b ≠ ""%string → int b = Ok e →
     main int args frames dataset
     = main_run args (Some 0%Z) (Some e) dataset) ∧
  (∀ s, a ≠ ""%string → b = ""%string → int a = Ok s →
     main int args frames dataset = main_run args (Some s) None dataset) ∧
  (a = ""%string → b = ""%string →
     main int args frames dataset = main_run args (Some 0%Z) None dataset) ∧
  (∀ err, a ≠ ""%string → int a = Raise err →
     main int args frames dataset = ([], Raise err)).
Proof.
  intros Hdot frames. subst frames.
  pose proof (parse_frame_range_dots int a b Hdot) as Hparse.
  split; [done|]. unfold main. rewrite Hparse. split_and!.
  - intros s e Ha Hb Hs He.
    rewrite (decide_False (P := a = ""%string)) by done.
    rewrite (decide_False (P := b = ""%string)) by done.
    by rewrite Hs, He.
  - intros e Ha Hb He.
    rewrite (decide_True (P := a = ""%string)) by done.
    rewrite (decide_False (P := b = ""%string)) by done.
    by rewrite He.
  - intros s Ha Hb Hs.
    rewrite (decide_False (P := a = ""%string)) by done.
    rewrite (decide_True (P := b = ""%string)) by done.
    by rewrite Hs.
  - intros Ha Hb.
    rewrite (decide_True (P := a = ""%string)) by done.
    by rewrite (decide_True (P := b = ""%string)) by done.
  - intros err Ha Herr.
    rewrite (decide_False (P := a = ""%string)) by done.
    by rewrite Herr.
Qed.

Lemma frames_argument_witness :
  parse_frame_range (λ s, if decide (s = "0"%string) then Ok 0%Z
                          else if decide (s = "2"%string) then Ok 2%Z
                          else Raise ValueError) "0..2"
  = Ok (Some 0%Z, Some 2%Z).
Proof.
  destruct (frames_argument
              (λ s, if decide (s = "0"%string) then Ok 0%Z
                    else if decide (s = "2"%string) then Ok 2%Z
                    else Raise ValueError)
              (mkArgs (qc 1) (extent_of 0 2 0 2) false RMax MMinmax)
              "0" "2" []) as [Hparse _]; [reflexivity|].
  etrans; [exact Hparse|reflexivity].
Defined.

(** ** Outcomes of [rasterize_bev] in floating point *)

Lemma fp_bev_size_zero (d resolution : FP.float) :
  FP.is_zero resolution = true →
  (q ← FP.py_truediv d resolution; FP.py_int q) = Raise ZeroDivisionError.
Proof. intros H. unfold FP.py_truediv. by rewrite H. Qed.

Lemma fp_bev_size_nonzero (d resolution : FP.float) :
  FP.is_zero resolution = false →
  (q ← FP.py_truediv d resolution; FP.py_int q)
  = FP.py_int (FP.f64_div d resolution).
Proof. intros H. unfold FP.py_truediv. by rewrite H. Qed.

Lemma fp_rasterize_bev_width_error points extent resolution reducer e :
  FP.bev_width extent resolution = Raise e →
  FP.rasterize_bev points extent resolution reducer = Raise e.
Proof. intros H. unfold FP.rasterize_bev. by rewrite H. Qed.

Lemma fp_rasterize_bev_height_error points extent resolution reducer w e :
  FP.bev_width extent resolution = Ok w →
  FP.bev_height extent resolution = Raise e →
  FP.rasterize_bev points extent resolution reducer = Raise e.
Proof. intros Hw H. unfold FP.rasterize_bev. by rewrite Hw, H. Qed.

(** The result of [rasterize_bev] once both dimensions are computed. *)
Lemma fp_rasterize_bev_sized points extent resolution reducer width height :
  FP.bev_width extent resolution = Ok width →
  FP.bev_height extent resolution = Ok height →
  ((height < 0 ∨ width < 0)%Z ∧
   FP.rasterize_bev points extent resolution reducer = Raise ValueError) ∨
  ((0 ≤ height)%Z ∧ (0 ≤ width)%Z ∧
   (height = 0 ∨ width = 0)%Z ∧
   FP.valid_points extent points ≠ [] ∧ reducer ≠ ROther ∧
   FP.rasterize_bev points extent resolution reducer = Raise IndexError) ∨
  ((0 ≤ height)%Z ∧ (0 ≤ width)%Z ∧
   (((1 ≤ height)%Z ∧ (1 ≤ width)%Z) ∨
    FP.valid_points extent points = [] ∨ reducer = ROther) ∧
   ∃ g, FP.rasterize_bev points extent resolution reducer = Ok g).
Proof.
  intros Hwidth Hheight.
  destruct (decide (height < 0 ∨ width < 0)%Z) as [Hneg|Hneg].
  { left. split; [done|]. by eapply fp_rasterize_bev_negative. }
  right.
  destruct (decide (FP.valid_points extent points = [])) as [Hv|Hv].
  { right. split_and!; [lia|lia|auto|].
    eexists. eapply fp_rasterize_bev_easy; eauto; lia. }
  assert (reducer = ROther ∨ reducer ≠ ROther) as [Hred|Hred]
    by (destruct reducer; auto).
  { right. split_and!; [lia|lia|auto|].
    eexists. eapply fp_rasterize_bev_easy; eauto; lia. }
  destruct (decide (height = 0 ∨ width = 0)%Z) as [Hdeg|Hdeg].
  { left. split_and!; [lia|lia|done|done|done|].
    eapply fp_rasterize_bev_degenerate; eauto; lia. }
  right. split_and!; [lia|lia|left; lia|].
  destruct reducer; [| |done]; eexists.
  - eapply fp_rasterize_bev_max; eauto; lia.
  - eapply fp_rasterize_bev_mean; eauto; lia.
Qed.

(** Each case of the outcome: the equations between results decide, the
    side conditions are arithmetic. *)
Ltac outcome_leaf :=
  split_and!;
  [split; intros;
   repeat match goal with
          | H : ∃ _, _ |- _ => destruct H
          end;
   first [discriminate | by eexists
         | intuition (first [discriminate | lia | congruence])] ..
  | intros ? ?; simplify_eq; auto].

(** X1.  The outcomes of [rasterize_bev], in the order in which the code
    meets them.  It raises [ZeroDivisionError] exactly when the resolution
    is zero; [OverflowError] exactly when the first of the two quotients
    that is not finite is an infinity; [ValueError] exactly when that
    quotient is NaN or when both are finite and the width or the height is
    negative; [IndexError] exactly when the grid has no cell while some
    point lies in the extent and the reducer is "max" or "mean"; and it
    returns a grid in every other case.  It raises no other exception.
    Memory is not part of the reading: [np.zeros] is taken to allocate
    every grid without a negative dimension. *)
Theorem rasterize_bev_outcome (points : list FP.Point) (extent : FP.Extent)
    (resolution : FP.float) (reducer : Reducer) :
  let qw := FP.f64_div (FP.f64_sub (FP.xmax extent) (FP.xmin extent))
                       resolution in
  let qh := FP.f64_div (FP.f64_sub (FP.ymax extent) (FP.ymin extent))
                       resolution in
  let outcome := FP.rasterize_bev points extent resolution reducer in
  (outcome = Raise ZeroDivisionError ↔ FP.is_zero resolution = true) ∧
  (outcome = Raise OverflowError
   ↔ FP.is_zero resolution = false ∧
     (FP.is_infinity qw = true ∨
      (FP.is_finite qw = true ∧ FP.is_infinity qh = true))) ∧
  (outcome = Raise ValueError
   ↔ FP.is_zero resolution = false ∧
     (FP.is_nan qw = true ∨
      (FP.is_finite qw = true ∧ FP.is_nan qh = true) ∨
      (FP.is_finite qw = true ∧ FP.is_finite qh = true ∧
       (FP.trunc qh < 0 ∨ FP.trunc qw < 0)%Z))) ∧
  (outcome = Raise IndexError
   ↔ FP.is_zero resolution = false ∧
     FP.is_finite qw = true ∧ FP.is_finite qh = true ∧
     (0 ≤ FP.trunc qh)%Z ∧ (0 ≤ FP.trunc qw)%Z ∧
     (FP.trunc qh = 0 ∨ FP.trunc qw = 0)%Z ∧
     FP.valid_points extent points ≠ [] ∧ reducer ≠ ROther) ∧
  ((∃ g, outcome = Ok g)
   ↔ FP.is_zero resolution = false ∧
     FP.is_finite qw = true ∧ FP.is_finite qh = true ∧
     (0 ≤ FP.trunc qh)%Z ∧ (0 ≤ FP.trunc qw)%Z ∧
     (((1 ≤ FP.trunc qh)%Z ∧ (1 ≤ FP.trunc qw)%Z) ∨
      FP.valid_points extent points = [] ∨ reducer = ROther)) ∧
  (∀ e, outcome = Raise e →
        e = ZeroDivisionError ∨ e = OverflowError ∨ e = ValueError ∨
        e = IndexError).
Proof.
  intros qw qh outcome. subst outcome.
  destruct (FP.is_zero resolution) eqn:Hz.
  { rewrite (fp_rasterize_bev_width_error _ _ _ _ ZeroDivisionError)
      by (by apply fp_bev_size_zero).
    outcome_leaf. }
  assert (FP.bev_width extent resolution = FP.py_int qw) as Hbw
    by (by apply fp_bev_size_nonzero).
  assert (FP.bev_height extent resolution = FP.py_int qh) as Hbh
    by (by apply fp_bev_size_nonzero).
  clearbody qw qh.
  destruct (FP.is_finite qw) eqn:Hfw; cycle 1.
  { assert (∃ e, FP.py_int qw = Raise e ∧
                 ((e = OverflowError ∧ FP.is_infinity qw = true ∧
                   FP.is_nan qw = false) ∨
                  (e = ValueError ∧ FP.is_nan qw = true ∧
                   FP.is_infinity qw = false))) as (e & He & Hcase).
    { destruct qw; try done; eexists; (split; [done|]); auto. }
    rewrite He in Hbw.
    rewrite (fp_rasterize_bev_width_error _ _ _ _ e) by done.
    destruct Hcase as [(-> & Hi & Hn)|(-> & Hn & Hi)]; rewrite Hi, Hn;
      outcome_leaf. }
  assert (FP.py_int qw = Ok (FP.trunc qw)) as Hpw by (by destruct qw).
  assert (FP.is_infinity qw = false ∧ FP.is_nan qw = false) as [Hiw Hnw]
    by (by destruct qw).
  rewrite Hpw in Hbw. rewrite Hiw, Hnw.
  destruct (FP.is_finite qh) eqn:Hfh; cycle 1.
  { assert (∃ e, FP.py_int qh = Raise e ∧
                 ((e = OverflowError ∧ FP.is_infinity qh = true ∧
                   FP.is_nan qh = false) ∨
                  (e = ValueError ∧ FP.is_nan qh = true ∧
                   FP.is_infinity qh = false))) as (e & He & Hcase).
    { destruct qh; try done; eexists; (split; [done|]); auto. }
    rewrite He in Hbh.
    rewrite (fp_rasterize_bev_height_error _ _ _ _ _ e Hbw) by done.
    destruct Hcase as [(-> & Hi & Hn)|(-> & Hn & Hi)]; rewrite Hi, Hn;
      outcome_leaf. }
  assert (FP.py_int qh = Ok (FP.trunc qh)) as Hph by (by destruct qh).
  assert (FP.is_infinity qh = false ∧ FP.is_nan qh = false) as [Hih Hnh]
    by (by destruct qh).
  rewrite Hph in Hbh. rewrite Hih, Hnh.
  destruct (fp_rasterize_bev_sized points extent resolution reducer _ _
              Hbw Hbh)
    as [(Hneg & ->)|[(Hh & Hw & Hdeg & Hv & Hred & ->)
                    |(Hh & Hw & Hok & g & ->)]];
    outcome_leaf.
Qed.

Lemma rasterize_bev_outcome_witness :
  FP.rasterize_bev [FP.pt 0.5 0.5 10] (FP.extent_of (-80) 80 (-80) 80)
                   (S754_finite false 1 (-1074)) RMax
  = Raise OverflowError.
Proof.
  apply (rasterize_bev_outcome [FP.pt 0.5 0.5 10]
           (FP.extent_of (-80) 80 (-80) 80) (S754_finite false 1 (-1074))
           RMax).
  split; [done|]. left. by vm_compute.
Defined.
